(** * ClarityOS Bridge: the bridge server of [src/lib/server.ts]

    A shallow embedding of [startBridgeServer] and of the functions it
    closes over ([appendLine] wrapper, [broadcast], [executeCommand],
    [handleConnection], the server's error handler), followed by the
    properties of the dispatcher, the output history and the subscriber
    set. The start and stop commands, the status bar and the two HTML
    functions of [src/lib/webview.ts] come after the server.

    Conventions of the embedding.
    - A JavaScript string is the list of its UTF-16 code units.
    - A JavaScript value is a data tree (what [JSON.parse] produces, plus
      [undefined]); its objects are plain objects whose properties are
      data, and numbers are the integer-valued ones.
    - An async function that is awaited is run to completion; its
      rejection is a [Throw], and [Pending] stands for a promise that
      never settles.
    - The callbacks of the event loop (the listeners of a socket, the
      [.catch] of a request) run one after the other, and what one of
      them throws is not seen by the next.
    - What the runtime or the host application decides (JSON text, the
      wording of engine errors, the evaluation of code, the webview and
      config collaborators) is a field of the record [env]. *)

From Stdlib Require Import String Ascii.
From Stdlib Require Import List ZArith NArith Bool Lia Permutation.
From Stdlib Require Import DecimalString.
Import ListNotations.
Local Open Scope list_scope.
Set Warnings "-register-all".

(** ** Strings *)

Definition jsstring := list N.

(** An ASCII literal of the source as code units. *)
Definition lit (s : string) : jsstring :=
  map N_of_ascii (list_ascii_of_string s).

Definition LF : N := 10.
Definition SEMICOLON : N := 59.

Fixpoint jsstring_eqb (a b : jsstring) : bool :=
  match a, b with
  | [], [] => true
  | x :: a', y :: b' => N.eqb x y && jsstring_eqb a' b'
  | _, _ => false
  end.

(** [String.prototype.includes] with a needle of one code unit. *)
Definition includes (c : N) (s : jsstring) : bool := existsb (N.eqb c) s.

(** WhiteSpace and LineTerminator code units, the ones [trim] strips. *)
Definition is_js_whitespace (c : N) : bool :=
  ((9 <=? c) && (c <=? 13) || (c =? 32) || (c =? 160) || (c =? 5760)
   || ((8192 <=? c) && (c <=? 8202)) || (c =? 8232) || (c =? 8233)
   || (c =? 8239) || (c =? 8287) || (c =? 12288) || (c =? 65279))%N.

Fixpoint trimStart (s : jsstring) : jsstring :=
  match s with
  | c :: rest => if is_js_whitespace c then trimStart rest else s
  | [] => []
  end.

Definition trimEnd (s : jsstring) : jsstring := rev (trimStart (rev s)).

Definition trim (s : jsstring) : jsstring := trimEnd (trimStart s).

(** Word characters of a regular expression without flags: [A-Za-z0-9_]. *)
Definition is_word_char (c : N) : bool :=
  ((48 <=? c) && (c <=? 57) || (65 <=? c) && (c <=? 90)
   || (97 <=? c) && (c <=? 122) || (c =? 95))%N.

Fixpoint starts_with (p s : jsstring) : bool :=
  match p, s with
  | [], _ => true
  | x :: p', y :: s' => N.eqb x y && starts_with p' s'
  | _ :: _, [] => false
  end.

Definition RETURN : jsstring := lit "return".

(** The assertion [\b] after the six letters: end of input or a
    character that is not a word character. *)
Definition boundary_after (s : jsstring) : bool :=
  match s with
  | [] => true
  | c :: _ => negb (is_word_char c)
  end.

(** [/\breturn\b/.test(s)], scanning from the left; [prev_word] tells
    whether the character before the current position is a word
    character. *)
Fixpoint test_return_from (prev_word : bool) (s : jsstring) : bool :=
  match s with
  | [] => false
  | c :: rest =>
      (negb prev_word && starts_with RETURN s
       && boundary_after (skipn 6 s))
      || test_return_from (is_word_char c) rest
  end.

Definition test_return (s : jsstring) : bool := test_return_from false s.

(** The tests of the [eval] case on the trimmed code. *)
Definition hasExplicitReturn (code : jsstring) : bool := test_return code.

Definition isSingleExpression (code : jsstring) : bool :=
  negb (includes LF code) && negb (includes SEMICOLON code).

(** [if (!hasExplicitReturn && isSingleExpression) code = `return (${code})`] *)
Definition implicit_return (code : jsstring) : jsstring :=
  if negb (hasExplicitReturn code) && isSingleExpression code
  then lit "return (" ++ code ++ lit ")"
  else code.

(** From [cmdParams.code], a string, to the body of the function that is
    run: [trim] first, then the implicit return. *)
Definition eval_body (source : jsstring) : jsstring :=
  implicit_return (trim source).

(** The keyword [return] occurs in [s] as a whole word: what the
    regular expression is meant to detect, stated on the text. *)
Definition ends_non_word (pre : jsstring) : Prop :=
  pre = [] \/ exists p c, pre = p ++ [c] /\ is_word_char c = false.

Definition begins_non_word (post : jsstring) : Prop :=
  post = [] \/ exists c q, post = c :: q /\ is_word_char c = false.

Definition contains_return_keyword (s : jsstring) : Prop :=
  exists pre post,
    s = pre ++ RETURN ++ post /\ ends_non_word pre /\ begins_non_word post.


(** ** Values *)

Inductive value : Type :=
| VUndefined
| VNull
| VBool (b : bool)
| VNum (z : Z)
| VStr (s : jsstring)
| VArr (items : list value)
| VObj (fields : list (jsstring * value)).

(** ToBoolean. *)
Definition truthy (v : value) : bool :=
  match v with
  | VUndefined | VNull => false
  | VBool b => b
  | VNum z => negb (Z.eqb z 0)
  | VStr s => match s with [] => false | _ => true end
  | VArr _ | VObj _ => true
  end.

(** [typeof v === 'object'] *)
Definition typeof_object (v : value) : bool :=
  match v with
  | VNull | VArr _ | VObj _ => true
  | _ => false
  end.

Fixpoint lookup (k : jsstring) (fields : list (jsstring * value))
  : option value :=
  match fields with
  | [] => None
  | (k', v) :: rest => if jsstring_eqb k k' then Some v else lookup k rest
  end.

(** [v.k] where [v] is neither [null] nor [undefined], for the keys the
    server reads (none of them is a property of a primitive or of an
    array). *)
Definition member (v : value) (k : string) : value :=
  match v with
  | VObj fields =>
      match lookup (lit k) fields with Some x => x | None => VUndefined end
  | _ => VUndefined
  end.

(** [k in v] for a value whose [typeof] is ['object'] and is not [null]. *)
Definition has_property (k : string) (v : value) : bool :=
  match v with
  | VObj fields =>
      match lookup (lit k) fields with Some _ => true | None => false end
  | _ => false
  end.

(** The decimal digits of an integer, with its sign. *)
Definition digits (z : Z) : jsstring :=
  lit (NilZero.string_of_int (Z.to_int z)).

Fixpoint join (sep : jsstring) (parts : list jsstring) : jsstring :=
  match parts with
  | [] => []
  | [p] => p
  | p :: rest => p ++ sep ++ join sep rest
  end.

(** SameValueZero on the values a parsed request can hold: primitives by
    content, objects and arrays by reference, and every [JSON.parse]
    allocates fresh ones. *)
Definition same_value_zero (a b : value) : bool :=
  match a, b with
  | VUndefined, VUndefined => true
  | VNull, VNull => true
  | VBool x, VBool y => Bool.eqb x y
  | VNum x, VNum y => Z.eqb x y
  | VStr x, VStr y => jsstring_eqb x y
  | _, _ => false
  end.

(** ** Exceptions and outcomes *)

Inductive type_error : Type :=
| ReadPropertyOfNullish (base : value) (prop : jsstring)
| NotAFunction (callee : jsstring)
| DestructureNullish (v : value)
| NotConvertible (v : value).

Inductive exn : Type :=
| EngineTypeError (t : type_error)
| ErrorObject (name message : jsstring)
| ThrownValue (v : value).

(** How an evaluation ends: with a value, with an exception, or not at
    all, when it awaits a promise that never settles. *)
Inductive outcome (A : Type) : Type :=
| Return (a : A)
| Throw (e : exn)
| Pending.
Arguments Return {A} a.
Arguments Throw {A} e.
Arguments Pending {A}.

Inductive integer_or_infinity : Type :=
| Finite (z : Z)
| PlusInfinity
| MinusInfinity.

Inductive console_method : Type := ConsoleLog | ConsoleError | ConsoleWarn.

Definition console_call : Type := console_method * list value.

(** What the runtime and the collaborators passed to [startBridgeServer]
    decide. *)
Record env : Type := {
  (** [JSON.parse(data.toString())] on the text of a chunk *)
  JSON_parse : jsstring -> outcome value;
  (** [JSON.stringify(v)] *)
  JSON_stringify : value -> jsstring;
  (** [JSON.stringify(v, null, 2)] *)
  JSON_stringify_indented : value -> jsstring;
  (** the message of an error raised by the engine *)
  type_error_message : type_error -> jsstring;
  (** ToIntegerOrInfinity of the number a string denotes *)
  StringToInteger : jsstring -> integer_or_infinity;
  (** Number::toString of an integer of magnitude 1e21 or more, which is
      written with an exponent *)
  Number_exponent_form : Z -> jsstring;
  (** [new AsyncFunction('require', 'vscode', 'console', code)] called
      and awaited: the console calls it made and how it completed *)
  run_async_function : jsstring -> list console_call * outcome value;
  (** [webviewManager], and its [openView] when it is there *)
  webviewManager : option (value -> value -> value -> option exn);
  configHandlers_register : value -> value -> outcome value;
  configHandlers_unregister : value -> outcome value;
  configHandlers_list : outcome value;
  (** the snapshot the [status] case builds from [vs.window],
      [vs.workspace] and the clock *)
  status_snapshot : outcome value
}.

(** Number::toString of an integer-valued number. *)
Definition decimal (E : env) (z : Z) : jsstring :=
  if (Z.abs z <? 10 ^ 21)%Z then digits z else Number_exponent_form E z.

(** The outcomes of [parts] from the left, then the texts joined. *)
Fixpoint join_all (sep : jsstring) (parts : list (outcome jsstring))
  : outcome jsstring :=
  match parts with
  | [] => Return []
  | p :: rest =>
      match p with
      | Return s =>
          match rest with
          | [] => Return s
          | _ :: _ =>
              match join_all sep rest with
              | Return t => Return (s ++ sep ++ t)
              | Throw e => Throw e
              | Pending => Pending
              end
          end
      | Throw e => Throw e
      | Pending => Pending
      end
  end.

(** ToString, as a template literal or [String(v)] applies it. An array
    is joined with commas, [null] and [undefined] elements as empty
    texts. An object is printed by [Object.prototype.toString] unless it
    has a [toString] property of its own: in a data tree that property
    is not callable, [valueOf] returns the object, and the conversion
    throws a TypeError. *)
Fixpoint to_string (E : env) (v : value) : outcome jsstring :=
  match v with
  | VUndefined => Return (lit "undefined")
  | VNull => Return (lit "null")
  | VBool true => Return (lit "true")
  | VBool false => Return (lit "false")
  | VNum z => Return (decimal E z)
  | VStr s => Return s
  | VArr items =>
      join_all (lit ",")
        (map (fun x => match x with
                       | VUndefined | VNull => Return []
                       | _ => to_string E x
                       end) items)
  | VObj fields =>
      match lookup (lit "toString") fields with
      | Some _ => Throw (EngineTypeError (NotConvertible v))
      | None => Return (lit "[object Object]")
      end
  end.

(** ** The state of a running server *)

Inductive BridgeProgressEvent : Type :=
| Executing (method : value)
| Ready (port : Z).

Inductive socket_op : Type :=
| SocketWrite (text : jsstring)
| SocketEnd.

(** What the server asks of the outside, in the order it asks. *)
Inductive effect : Type :=
| Progress (event : BridgeProgressEvent)
| RestartScheduled
| OpenView (viewName title customPath : value)
| Post (url : value) (body : jsstring).

Record state : Type := {
  (** [subscribers], a [Set] in insertion order *)
  subscribers : list value;
  (** [outputHistory] *)
  outputHistory : list jsstring;
  (** the lines passed on to [originalAppendLine] *)
  channel : list jsstring;
  effects : list effect;
  (** the calls made on the socket of the connection being served *)
  socket : list socket_op
}.

Definition initial_state : state :=
  {| subscribers := []; outputHistory := []; channel := [];
     effects := []; socket := [] |}.

(** State and exceptions: a mutation made before a [throw] stays. *)
Definition M (A : Type) : Type := state -> outcome A * state.

Definition ret {A} (a : A) : M A := fun st => (Return a, st).

Definition throw {A} (e : exn) : M A := fun st => (Throw e, st).

Definition bind {A B} (m : M A) (k : A -> M B) : M B :=
  fun st =>
    match m st with
    | (Return a, st') => k a st'
    | (Throw e, st') => (Throw e, st')
    | (Pending, st') => (Pending, st')
    end.

Definition lift {A} (o : outcome A) : M A := fun st => (o, st).

(** [try { body } catch (error) { handler(error) }] *)
Definition try_catch {A} (body : M A) (handler : exn -> M A) : M A :=
  fun st =>
    match body st with
    | (Return a, st') => (Return a, st')
    | (Throw e, st') => handler e st'
    | (Pending, st') => (Pending, st')
    end.

(** A callback run by the event loop: what it throws, or its never
    finishing, is no one's to handle, and the next callback runs all the
    same. *)
Definition detached {A} (m : M A) : M unit :=
  fun st => (Return tt, snd (m st)).

Declare Scope js_scope.
Delimit Scope js_scope with js.
Notation "x <- m ;; k" := (bind m (fun x => k))
  (at level 61, m at next level, right associativity) : js_scope.
Notation "m ;;; k" := (bind m (fun _ => k))
  (at level 61, right associativity) : js_scope.
Local Open Scope js_scope.

Fixpoint forEach {A} (l : list A) (f : A -> M unit) : M unit :=
  match l with
  | [] => ret tt
  | x :: rest => f x ;;; forEach rest f
  end.

(** ** Output history *)

Definition CAPACITY : nat := 1000.

(** [outputHistory.push(value); if (outputHistory.length > 1000)
    outputHistory.shift()] *)
Definition push_history (history : list jsstring) (line : jsstring)
  : list jsstring :=
  let pushed := history ++ [line] in
  if Nat.ltb CAPACITY (length pushed) then tl pushed else pushed.

(** The wrapped [outputChannel.appendLine]. *)
Definition appendLine (line : jsstring) : M unit :=
  fun st =>
    (Return tt,
     {| subscribers := subscribers st;
        outputHistory := push_history (outputHistory st) line;
        channel := channel st ++ [line];
        effects := effects st;
        socket := socket st |}).

Definition emit (e : effect) : M unit :=
  fun st =>
    (Return tt,
     {| subscribers := subscribers st;
        outputHistory := outputHistory st;
        channel := channel st;
        effects := effects st ++ [e];
        socket := socket st |}).

Definition on_socket (op : socket_op) : M unit :=
  fun st =>
    (Return tt,
     {| subscribers := subscribers st;
        outputHistory := outputHistory st;
        channel := channel st;
        effects := effects st;
        socket := socket st ++ [op] |}).

Definition update_subscribers (f : list value -> list value) : M unit :=
  fun st =>
    (Return tt,
     {| subscribers := f (subscribers st);
        outputHistory := outputHistory st;
        channel := channel st;
        effects := effects st;
        socket := socket st |}).

Definition read_subscribers : M (list value) :=
  fun st => (Return (subscribers st), st).

Definition read_history : M (list jsstring) :=
  fun st => (Return (outputHistory st), st).

(** ** The subscriber set *)

Definition Set_has (v : value) (s : list value) : bool :=
  existsb (same_value_zero v) s.

Definition Set_add (v : value) (s : list value) : list value :=
  if Set_has v s then s else s ++ [v].

Definition Set_delete (v : value) (s : list value) : list value :=
  filter (fun x => negb (same_value_zero v x)) s.

(** ** Reading the request *)

(** [base.k], which throws on [null] and [undefined]. *)
Definition read (base : value) (k : string) : M value :=
  match base with
  | VUndefined | VNull =>
      throw (EngineTypeError (ReadPropertyOfNullish base (lit k)))
  | _ => ret (member base k)
  end.

(** [const { method, params: cmdParams } = request] *)
Definition destructure (request : value) : M (value * value) :=
  match request with
  | VUndefined | VNull =>
      throw (EngineTypeError (DestructureNullish request))
  | _ => ret (member request "method", member request "params")
  end.

(** [cmdParams.code.trim()] on the value of [cmdParams.code]. *)
Definition call_trim (code : value) : M jsstring :=
  match code with
  | VStr s => ret (trim s)
  | VUndefined | VNull =>
      throw (EngineTypeError (ReadPropertyOfNullish code (lit "trim")))
  | _ => throw (EngineTypeError (NotAFunction (lit "cmdParams.code.trim")))
  end.

(** [a || b] *)
Definition or_else (a b : value) : value := if truthy a then a else b.

(** ToIntegerOrInfinity(ToNumber(v)); [NaN] becomes 0. An array or an
    object is first converted to a primitive, which is its text or an
    exception, as for ToString. *)
Definition to_integer (E : env) (v : value) : outcome integer_or_infinity :=
  match v with
  | VUndefined | VNull => Return (Finite 0)
  | VBool b => Return (Finite (if b then 1 else 0))
  | VNum z => Return (Finite z)
  | VStr s => Return (StringToInteger E s)
  | VArr _ | VObj _ =>
      match to_string E v with
      | Return s => Return (StringToInteger E s)
      | Throw e => Throw e
      | Pending => Pending
      end
  end.

Definition negate (i : integer_or_infinity) : integer_or_infinity :=
  match i with
  | Finite z => Finite (- z)
  | PlusInfinity => MinusInfinity
  | MinusInfinity => PlusInfinity
  end.

(** [Array.prototype.slice(start)] with one argument. *)
Definition slice {A} (start : integer_or_infinity) (l : list A) : list A :=
  let len := Z.of_nat (length l) in
  let k :=
    match start with
    | MinusInfinity => 0%Z
    | Finite rel => if (rel <? 0)%Z then Z.max (len + rel) 0 else Z.min rel len
    | PlusInfinity => len
    end in
  skipn (Z.to_nat k) l.

(** ** Literals of the source *)

Definition CHECK_MARK : N := 10003.     (* U+2713 *)
Definition HEAVY_X : N := 10006.        (* U+2716 *)
Definition RIGHT_ARROW : N := 8594.     (* U+2192 *)
Definition LEFT_ARROW : N := 8592.      (* U+2190 *)
Definition TREE : jsstring := [55356; 57138]%N.  (* U+1F332 *)
Definition QUOTE : N := 34.

Definition str (s : string) : value := VStr (lit s).

Definition field (k : string) (v : value) : string * value := (k, v).

(** An object literal, its keys in source order. *)
Definition obj (fields : list (string * value)) : value :=
  VObj (map (fun kv => (lit (fst kv), snd kv)) fields).

(** The labels of the [switch] of [executeCommand], in source order. *)
Definition CASES : list string :=
  ["restartExtension"; "eval"; "webview"; "registerConfig";
   "unregisterConfig"; "listConfigs"; "subscribe"; "unsubscribe";
   "listSubscribers"; "getOutput"; "status"]%string.

(** The [available] array of the [default] case. *)
Definition AVAILABLE : list string :=
  ["eval"; "webview"; "registerConfig"; "unregisterConfig"; "listConfigs";
   "subscribe"; "unsubscribe"; "listSubscribers"; "status";
   "restartExtension"]%string.

Definition PORT : Z := 9485.

(** ** [executeCommand] *)

(** [case label:] of [switch (method)], a strict comparison. *)
Definition is_case (method : value) (label : string) : bool :=
  match method with
  | VStr s => jsstring_eqb s (lit label)
  | _ => false
  end.

(** A line of [evalConsole]: the prefix of the console method, then the
    arguments joined by spaces; an argument whose [typeof] is ['object']
    as indented JSON, any other by [String]. *)
Definition console_argument (E : env) (a : value) : jsstring :=
  match a with
  | VNull | VArr _ | VObj _ => JSON_stringify_indented E a
  | VUndefined => lit "undefined"
  | VBool true => lit "true"
  | VBool false => lit "false"
  | VNum z => decimal E z
  | VStr s => s
  end.

Definition evalConsole (E : env) (call : console_call) : jsstring :=
  let message := join (lit " ") (map (console_argument E) (snd call)) in
  match fst call with
  | ConsoleLog => lit "[eval] " ++ message
  | ConsoleError => lit "[eval:error] " ++ message
  | ConsoleWarn => lit "[eval:warn] " ++ message
  end.

Definition case_restartExtension : M value :=
  emit RestartScheduled ;;;
  ret (obj [field "success" (VBool true);
            field "message" (str "Extension host will restart")]).

Definition case_eval (E : env) (cmdParams : value) : M value :=
  source <- read cmdParams "code" ;;
  code <- call_trim source ;;
  let code := implicit_return code in
  let run := run_async_function E code in
  forEach (fst run) (fun call => appendLine (evalConsole E call)) ;;;
  lift (snd run).

Definition case_webview (E : env) (cmdParams : value) : M value :=
  match webviewManager E with
  | None => ret (obj [field "error" (str "WebviewManager not initialized")])
  | Some openView =>
      viewName <- read cmdParams "viewName" ;;
      if negb (truthy viewName)
      then ret (obj [field "error" (str "viewName parameter required")])
      else
        title <- read cmdParams "title" ;;
        title <- (if truthy title then ret title
                  else name <- lift (to_string E viewName) ;;
                       ret (VStr (TREE ++ lit " " ++ name))) ;;
        customPath <- read cmdParams "customPath" ;;
        emit (OpenView viewName title customPath) ;;;
        match openView viewName title customPath with
        | Some error => throw error
        | None =>
            ret (obj [field "success" (VBool true); field "webview" viewName])
        end
  end.

Definition case_registerConfig (E : env) (cmdParams : value) : M value :=
  name <- read cmdParams "name" ;;
  if negb (truthy name)
  then ret (obj [field "error" (str "name and filePath required")])
  else
    filePath <- read cmdParams "filePath" ;;
    if negb (truthy filePath)
    then ret (obj [field "error" (str "name and filePath required")])
    else lift (configHandlers_register E name filePath).

Definition case_unregisterConfig (E : env) (cmdParams : value) : M value :=
  name <- read cmdParams "name" ;;
  if negb (truthy name)
  then ret (obj [field "error" (str "name required")])
  else lift (configHandlers_unregister E name).

Definition case_listConfigs (E : env) : M value :=
  lift (configHandlers_list E).

Definition case_subscribe (E : env) (cmdParams : value) : M value :=
  url <- read cmdParams "url" ;;
  if negb (truthy url)
  then ret (obj [field "error" (str "url parameter required")])
  else
    update_subscribers (Set_add url) ;;;
    logged_url <- lift (to_string E url) ;;
    appendLine (CHECK_MARK :: lit " Subscribed: " ++ logged_url) ;;;
    message_url <- lift (to_string E url) ;;
    subs <- read_subscribers ;;
    ret (obj [field "success" (VBool true);
              field "message" (VStr (lit "Subscribed to " ++ message_url));
              field "subscribers" (VArr subs)]).

Definition case_unsubscribe (E : env) (cmdParams : value) : M value :=
  url <- read cmdParams "url" ;;
  if negb (truthy url)
  then ret (obj [field "error" (str "url parameter required")])
  else
    update_subscribers (Set_delete url) ;;;
    logged_url <- lift (to_string E url) ;;
    appendLine (CHECK_MARK :: lit " Unsubscribed: " ++ logged_url) ;;;
    message_url <- lift (to_string E url) ;;
    ret (obj [field "success" (VBool true);
              field "message"
                (VStr (lit "Unsubscribed from " ++ message_url))]).

Definition case_listSubscribers (E : env) : M value :=
  subs <- read_subscribers ;;
  ret (obj [field "success" (VBool true);
            field "message"
              (VStr (decimal E (Z.of_nat (length subs))
                     ++ lit " subscriber(s)"));
            field "subscribers" (VArr subs)]).

Definition case_getOutput (E : env) (cmdParams : value) : M value :=
  lines <- read cmdParams "lines" ;;
  let lines := or_else lines (VNum 100) in
  history <- read_history ;;
  start <- lift (to_integer E lines) ;;
  ret (obj [field "output"
              (VArr (map VStr (slice (negate start) history)));
            field "total" (VNum (Z.of_nat (length history)))]).

Definition case_status (E : env) : M value := lift (status_snapshot E).

Definition case_default (E : env) (method : value) : M value :=
  name <- lift (to_string E method) ;;
  ret (obj [field "error" (VStr (lit "Unknown method: " ++ name));
            field "available" (VArr (map str AVAILABLE));
            field "hint"
              (VStr (lit "Run " ++ [QUOTE] ++ lit "vscode --help" ++ [QUOTE]
                     ++ lit " for examples"))]).

Definition executeCommand (E : env) (request : value) : M value :=
  parts <- destructure request ;;
  let method := fst parts in
  let cmdParams := snd parts in
  emit (Progress (Executing method)) ;;;
  if is_case method "restartExtension" then case_restartExtension
  else if is_case method "eval" then case_eval E cmdParams
  else if is_case method "webview" then case_webview E cmdParams
  else if is_case method "registerConfig" then case_registerConfig E cmdParams
  else if is_case method "unregisterConfig"
       then case_unregisterConfig E cmdParams
  else if is_case method "listConfigs" then case_listConfigs E
  else if is_case method "subscribe" then case_subscribe E cmdParams
  else if is_case method "unsubscribe" then case_unsubscribe E cmdParams
  else if is_case method "listSubscribers" then case_listSubscribers E
  else if is_case method "getOutput" then case_getOutput E cmdParams
  else if is_case method "status" then case_status E
  else case_default E method.

(** ** [handleConnection] *)

(** [Error.prototype.toString] *)
Definition error_toString (name message : jsstring) : jsstring :=
  match name, message with
  | [], _ => message
  | _, [] => name
  | _, _ => name ++ lit ": " ++ message
  end.

(** [String(error)] and [`${error}`] *)
Definition exn_to_string (E : env) (error : exn) : outcome jsstring :=
  match error with
  | EngineTypeError t =>
      Return (error_toString (lit "TypeError") (type_error_message E t))
  | ErrorObject name message => Return (error_toString name message)
  | ThrownValue v => to_string E v
  end.

(** [error instanceof Error ? error.message : String(error)] *)
Definition exn_message (E : env) (error : exn) : outcome jsstring :=
  match error with
  | EngineTypeError t => Return (type_error_message E t)
  | ErrorObject _ message => Return message
  | ThrownValue v => to_string E v
  end.

(** The two branches after [await executeCommand(request)]. *)
Definition respond (E : env) (result : value) : M unit :=
  if truthy result && typeof_object result && has_property "error" result
  then
    let response :=
      obj [field "ok" (VBool false); field "error" (member result "error")] in
    appendLine (LEFT_ARROW :: lit " OUTPUT: " ++ JSON_stringify E response) ;;;
    on_socket (SocketWrite (JSON_stringify E response))
  else
    let response := obj [field "ok" (VBool true); field "result" result] in
    appendLine (LEFT_ARROW :: lit " OUTPUT: " ++ JSON_stringify E response) ;;;
    on_socket (SocketWrite (JSON_stringify E response)).

(** The body of [try] in the listener of ['data']. *)
Definition on_data_try (E : env) (data : jsstring) : M unit :=
  request <- lift (JSON_parse E data) ;;
  appendLine (RIGHT_ARROW :: lit " INPUT: " ++ JSON_stringify E request) ;;;
  result <- executeCommand E request ;;
  respond E result ;;;
  on_socket SocketEnd.

(** The body of its [catch (error)]. *)
Definition on_data_catch (E : env) (error : exn) : M unit :=
  message <- lift (exn_message E error) ;;
  let response :=
    obj [field "ok" (VBool false); field "error" (VStr message)] in
  appendLine (LEFT_ARROW :: lit " ERROR: " ++ JSON_stringify E response) ;;;
  on_socket (SocketWrite (JSON_stringify E response)) ;;;
  on_socket SocketEnd.

(** The listener of ['data']. *)
Definition on_data (E : env) (data : jsstring) : M unit :=
  try_catch (on_data_try E data) (on_data_catch E).

(** The listener of ['error']. *)
Definition on_error (E : env) (error : exn) : M unit :=
  text <- lift (exn_to_string E error) ;;
  appendLine (HEAVY_X :: lit " SOCKET ERROR: " ++ text).

Inductive socket_event : Type :=
| DataEvent (data : jsstring)
| ErrorEvent (error : exn).

Definition on_socket_event (E : env) (ev : socket_event) : M unit :=
  match ev with
  | DataEvent data => on_data E data
  | ErrorEvent error => on_error E error
  end.

Definition accept : M unit :=
  fun st =>
    (Return tt,
     {| subscribers := subscribers st;
        outputHistory := outputHistory st;
        channel := channel st;
        effects := effects st;
        socket := [] |}).

(** A connection: the two listeners are registered on a new socket, then
    the events of that socket arrive one after the other, each to its
    listener. *)
Definition handleConnection (E : env) (events : list socket_event) : M unit :=
  accept ;;; forEach events (fun ev => detached (on_socket_event E ev)).

(** ** [broadcast] *)

(** [subscribers.forEach(url => fetch(url, { method: 'POST', ..., body:
    JSON.stringify(event) }).catch(...))]: one request per subscriber is
    issued; the promises settle later. *)
Definition broadcast (E : env) (event : value) : M unit :=
  subs <- read_subscribers ;;
  forEach subs (fun url => emit (Post url (JSON_stringify E event))).

(** How the promise of one [fetch] settles. *)
Inductive settlement : Type :=
| Fulfilled
| Rejected (err : exn).

(** The [.catch] callback attached to the request sent to [url]. *)
Definition fetch_catch (E : env) (url : value) (err : exn) : M unit :=
  target <- lift (to_string E url) ;;
  reason <- lift (exn_to_string E err) ;;
  appendLine (HEAVY_X :: lit " Broadcast failed to " ++ target
              ++ lit ": " ++ reason).

Definition settle (E : env) (p : value * settlement) : M unit :=
  match snd p with
  | Fulfilled => ret tt
  | Rejected err => fetch_catch E (fst p) err
  end.

(** The requests of earlier broadcasts settle, in the order the network
    decides, each with its own callback. *)
Definition settle_all (E : env) (ps : list (value * settlement)) : M unit :=
  forEach ps (fun p => detached (settle E p)).



(** ** [startBridgeServer] and the life of the server *)

Record BridgeServerInstance : Type := { startTime : Z }.

(** The body of [startBridgeServer] up to its [return]: new [subscribers]
    and [outputHistory], the two lines of the banner, then the instance.
    [server.listen] only registers a callback; whether the port could be
    bound is known by a later event. *)
Definition startBridgeServer (now : Z)
  : outcome BridgeServerInstance * state :=
  (appendLine (lit "=== CLI Bridge Started ===") ;;;
   appendLine (lit "Listening on port " ++ digits PORT) ;;;
   ret {| startTime := now |}) initial_state.

(** The listener of the server's ['error']; [code] is [error.code]. *)
Definition on_server_error (E : env) (code : value) (error : exn) : M unit :=
  if is_case code "EADDRINUSE"
  then
    appendLine (HEAVY_X :: lit " Port " ++ digits PORT
                ++ lit " already in use") ;;;
    appendLine (lit "Run: lsof -ti :9485 | xargs kill -9")
  else
    text <- lift (exn_to_string E error) ;;
    appendLine (HEAVY_X :: lit " Server error: " ++ text).

(** The callback of [server.listen]. *)
Definition on_listening : M unit :=
  appendLine (lit "Server is ready") ;;;
  emit (Progress (Ready PORT)).

(** What [server.listen(port, ...)] leads to. *)
Inductive listen_result : Type :=
| Listening
| ListenError (code : value) (error : exn).

Definition on_listen_result (E : env) (r : listen_result) : M unit :=
  match r with
  | Listening => on_listening
  | ListenError code error => on_server_error E code error
  end.

(** [startBridgeServer] followed by the event [server.listen] leads to. *)
Definition start (E : env) (now : Z) (r : listen_result)
  : outcome BridgeServerInstance * state :=
  match startBridgeServer now with
  | (Return instance, st) =>
      (Return instance, snd (on_listen_result E r st))
  | (Throw e, st) => (Throw e, st)
  | (Pending, st) => (Pending, st)
  end.

(** [dispose]: the callback of [server.close]. *)
Definition dispose (E : env) (err : option exn) : M unit :=
  match err with
  | Some e =>
      text <- lift (exn_to_string E e) ;;
      appendLine (HEAVY_X :: lit " Error closing server: " ++ text)
  | None => appendLine (CHECK_MARK :: lit " Server closed")
  end.

(** ** Sequences of operations *)

(** The history after the lines [ls] were appended to [history]. *)
Definition append_all (history : list jsstring) (ls : list jsstring)
  : list jsstring :=
  fold_left push_history ls history.

(** The last [n] elements. *)
Definition last_n {A} (n : nat) (l : list A) : list A :=
  skipn (length l - n) l.

Inductive registry_op : Type :=
| Subscribe (url : jsstring)
| Unsubscribe (url : jsstring).

Definition registry_request (op : registry_op) : value :=
  match op with
  | Subscribe url =>
      obj [field "method" (str "subscribe");
           field "params" (obj [field "url" (VStr url)])]
  | Unsubscribe url =>
      obj [field "method" (str "unsubscribe");
           field "params" (obj [field "url" (VStr url)])]
  end.

(** The requests of [ops] dispatched one after the other. *)
Fixpoint run_registry (E : env) (ops : list registry_op) (st : state)
  : state :=
  match ops with
  | [] => st
  | op :: rest =>
      run_registry E rest (snd (executeCommand E (registry_request op) st))
  end.

(** Membership by set semantics: the last operation on [url] decides,
    and without one the set it started from. *)
Fixpoint subscribed_after (ops : list registry_op) (url : jsstring)
  (before : bool) : bool :=
  match ops with
  | [] => before
  | Subscribe u :: rest =>
      subscribed_after rest url (if jsstring_eqb url u then true else before)
  | Unsubscribe u :: rest =>
      subscribed_after rest url (if jsstring_eqb url u then false else before)
  end.

(** ** Requests and a sample host *)

Definition request_of (method : string) (params : value) : value :=
  obj [field "method" (str method); field "params" params].

Definition eval_request (source : jsstring) : value :=
  request_of "eval" (obj [field "code" (VStr source)]).

Definition getOutput_request (lines : value) : value :=
  request_of "getOutput" (obj [field "lines" lines]).


(** A literal with double quotes inside, written with apostrophes. *)
Definition dq (s : string) : jsstring :=
  map (fun c => if N.eqb c 39 then QUOTE else c) (lit s).

(** The serializer of the sample host: [JSON.stringify] on values whose
    strings need no escape and whose objects have no [undefined] field. *)
Fixpoint sample_stringify (v : value) : jsstring :=
  match v with
  | VUndefined | VNull => lit "null"
  | VBool true => lit "true"
  | VBool false => lit "false"
  | VNum z => digits z
  | VStr s => QUOTE :: s ++ [QUOTE]
  | VArr items =>
      lit "[" ++ join (lit ",") (map sample_stringify items) ++ lit "]"
  | VObj fields =>
      lit "{"
      ++ join (lit ",")
           (map (fun kv =>
                   match kv with
                   | (k, x) =>
                       QUOTE :: k ++ [QUOTE] ++ lit ":" ++ sample_stringify x
                   end) fields)
      ++ lit "}"
  end.

Definition EVAL_40_PLUS_2 : jsstring :=
  dq "{'method':'eval','params':{'code':'40+2'}}".

(** The wording of the engine errors on the sample hosts. *)
Definition sample_type_error_message (t : type_error) : jsstring :=
  match t with
  | NotConvertible _ => lit "Cannot convert object to primitive value"
  | _ => lit "Cannot read properties of undefined"
  end.

(** A host for examples: no webview manager, config handlers that return
    [undefined], an engine that knows three programs, and a parser that
    knows four requests. *)
Definition sample_programs : list (jsstring * outcome value) :=
  [(lit "return (40+2)", Return (VNum 42));
   (lit "return (({error:1,free:0}))",
    Return (obj [field "error" (VNum 1); field "free" (VNum 0)]));
   (lit "throw new Error('boom');",
    Throw (ErrorObject (lit "Error") (lit "boom")))].

Fixpoint sample_run (programs : list (jsstring * outcome value))
  (code : jsstring) : outcome value :=
  match programs with
  | [] => Return VUndefined
  | (text, completion) :: rest =>
      if jsstring_eqb code text then completion else sample_run rest code
  end.

Definition EVAL_NO_CODE : jsstring := dq "{'method':'eval','params':{}}".

Definition EVAL_ERROR_OBJECT : jsstring :=
  dq "{'method':'eval','params':{'code':'({error:1,free:0})'}}".

Definition UNKNOWN_METHOD : jsstring := dq "{'method':'nope','params':{}}".

Definition sample_requests : list (jsstring * value) :=
  [(EVAL_40_PLUS_2, eval_request (lit "40+2"));
   (EVAL_NO_CODE, request_of "eval" (obj []));
   (EVAL_ERROR_OBJECT, eval_request (lit "({error:1,free:0})"));
   (UNKNOWN_METHOD, request_of "nope" (obj []))].

Fixpoint sample_parse (requests : list (jsstring * value)) (data : jsstring)
  : outcome value :=
  match requests with
  | [] => Throw (ErrorObject (lit "SyntaxError") (lit "Unexpected token"))
  | (text, request) :: rest =>
      if jsstring_eqb data text then Return request else sample_parse rest data
  end.

Definition sample_env : env :=
  {| JSON_parse := sample_parse sample_requests;
     JSON_stringify := sample_stringify;
     JSON_stringify_indented := sample_stringify;
     type_error_message := sample_type_error_message;
     StringToInteger := fun _ => Finite 0;
     Number_exponent_form := fun _ => lit "1e+21";
     run_async_function := fun code => ([], sample_run sample_programs code);
     webviewManager := None;
     configHandlers_register := fun _ _ => Return VUndefined;
     configHandlers_unregister := fun _ => Return VUndefined;
     configHandlers_list := Return VUndefined;
     status_snapshot := Return VUndefined |}.

(** A server whose history holds the lines [history] and nothing else. *)
Definition state_with_history (history : list jsstring) : state :=
  {| subscribers := []; outputHistory := history; channel := history;
     effects := []; socket := [] |}.

(** A server with the subscribers [subs] and nothing else. *)
Definition state_with_subscribers (subs : list value) : state :=
  {| subscribers := subs; outputHistory := []; channel := [];
     effects := []; socket := [] |}.

Definition op_url (op : registry_op) : jsstring :=
  match op with
  | Subscribe url => url
  | Unsubscribe url => url
  end.

(** The response object the listener of ['data'] builds from the result
    of the dispatcher. *)
Definition response_for (result : value) : value :=
  if truthy result && typeof_object result && has_property "error" result
  then obj [field "ok" (VBool false); field "error" (member result "error")]
  else obj [field "ok" (VBool true); field "result" result].


(** The state in which the dispatcher starts: the line of the request
    has been appended. *)
Definition logged_input (E : env) (request : value) (st : state) : state :=
  snd (appendLine (RIGHT_ARROW :: lit " INPUT: " ++ JSON_stringify E request)
         st).

(** ** Notions used by the statements *)

(** A computation that never touches the socket. *)
Definition keeps_socket {A} (m : M A) : Prop :=
  forall st, socket (snd (m st)) = socket st.

(** A computation that always returns. *)
Definition returns {A} (m : M A) : Prop :=
  forall st, exists a, fst (m st) = Return a.

(** The state in which a case of the [switch] starts: [onProgress] has
    been told of the method. *)
Definition entered (method : string) (st : state) : state :=
  snd (emit (Progress (Executing (str method))) st).

(** The two lines [startBridgeServer] logs before it returns. *)
Definition BANNER : list jsstring :=
  [lit "=== CLI Bridge Started ==="; lit "Listening on port 9485"].

(** ** Runs of the server *)

(** What happens to a server once [startBridgeServer] has returned: a
    connection with its events, a call of [broadcast], the settlement of
    requests of earlier broadcasts, the outcome of [server.listen], the
    callback of [server.close]. *)
Inductive server_op : Type :=
| Connection (events : list socket_event)
| Broadcast (event : value)
| Settled (ps : list (value * settlement))
| ListenResult (r : listen_result)
| Disposed (err : option exn).

Definition server_step (E : env) (op : server_op) : M unit :=
  match op with
  | Connection events => handleConnection E events
  | Broadcast event => broadcast E event
  | Settled ps => settle_all E ps
  | ListenResult r => on_listen_result E r
  | Disposed err => dispose E err
  end.

Definition run_from (E : env) (ops : list server_op) (st : state) : state :=
  fold_left (fun st op => snd (server_step E op st)) ops st.

Definition run_server (E : env) (now : Z) (ops : list server_op) : state :=
  run_from E ops (snd (startBridgeServer now)).

(** A computation that keeps a property of the state. *)
Definition preserves {A} (P : state -> Prop) (m : M A) : Prop :=
  forall st, P st -> P (snd (m st)).

(** The history is what the channel received, cut to its last 1000
    lines. *)
Definition history_mirrors_channel (st : state) : Prop :=
  outputHistory st = last_n CAPACITY (channel st).

(** The body of [executeCommand] after the destructuring, for a request
    that is neither [null] nor [undefined]. *)
Definition dispatch (E : env) (method cmdParams : value) : M value :=
  emit (Progress (Executing method)) ;;;
  if is_case method "restartExtension" then case_restartExtension
  else if is_case method "eval" then case_eval E cmdParams
  else if is_case method "webview" then case_webview E cmdParams
  else if is_case method "registerConfig" then case_registerConfig E cmdParams
  else if is_case method "unregisterConfig"
       then case_unregisterConfig E cmdParams
  else if is_case method "listConfigs" then case_listConfigs E
  else if is_case method "subscribe" then case_subscribe E cmdParams
  else if is_case method "unsubscribe" then case_unsubscribe E cmdParams
  else if is_case method "listSubscribers" then case_listSubscribers E
  else if is_case method "getOutput" then case_getOutput E cmdParams
  else if is_case method "status" then case_status E
  else case_default E method.

(** The cases that read a parameter before anything else, each with the
    first key it reads from [cmdParams]. *)
Definition PARAM_READERS : list (string * string) :=
  [("eval", "code"); ("registerConfig", "name"); ("unregisterConfig", "name");
   ("subscribe", "url"); ("unsubscribe", "url"); ("getOutput", "lines")]%string.

Definition nullish (v : value) : Prop := v = VUndefined \/ v = VNull.

(** The sample host with another table of requests and of programs. *)
Definition host_with (requests : list (jsstring * value))
  (programs : list (jsstring * (list console_call * outcome value))) : env :=
  {| JSON_parse := sample_parse requests;
     JSON_stringify := sample_stringify;
     JSON_stringify_indented := sample_stringify;
     type_error_message := sample_type_error_message;
     StringToInteger := fun _ => Finite 0;
     Number_exponent_form := fun _ => lit "1e+21";
     run_async_function := fun code =>
       match find (fun p => jsstring_eqb code (fst p)) programs with
       | Some p => snd p
       | None => ([], Return VUndefined)
       end;
     webviewManager := None;
     configHandlers_register := fun _ _ => Return VUndefined;
     configHandlers_unregister := fun _ => Return VUndefined;
     configHandlers_list := Return VUndefined;
     status_snapshot := Return VUndefined |}.

Definition SUBSCRIBE_NO_URL : jsstring :=
  dq "{'method':'subscribe','params':{}}".

Definition GET_OUTPUT_NO_PARAMS : jsstring := dq "{'method':'getOutput'}".

Definition EVAL_NULL : jsstring :=
  dq "{'method':'eval','params':{'code':'null'}}".

Definition EVAL_LOGS_THEN_THROWS : jsstring :=
  dq "{'method':'eval','params':{'code':'console.log(1); throw 2;'}}".

Definition more_requests : list (jsstring * value) :=
  [(SUBSCRIBE_NO_URL, request_of "subscribe" (obj []));
   (GET_OUTPUT_NO_PARAMS, obj [field "method" (str "getOutput")]);
   (EVAL_NULL, eval_request (lit "null"));
   (EVAL_LOGS_THEN_THROWS, eval_request (lit "console.log(1); throw 2;"))].

Definition more_programs
  : list (jsstring * (list console_call * outcome value)) :=
  [(lit "return (null)", ([], Return VNull));
   (lit "console.log(1); throw 2;",
    ([(ConsoleLog, [VNum 1])], Throw (ThrownValue (VNum 2))))].

Definition second_env : env := host_with more_requests more_programs.

(** A host with a webview manager whose [openView] returns. *)
Definition with_webview (E : env)
  (openView : value -> value -> value -> option exn) : env :=
  {| JSON_parse := JSON_parse E;
     JSON_stringify := JSON_stringify E;
     JSON_stringify_indented := JSON_stringify_indented E;
     type_error_message := type_error_message E;
     StringToInteger := StringToInteger E;
     Number_exponent_form := Number_exponent_form E;
     run_async_function := run_async_function E;
     webviewManager := Some openView;
     configHandlers_register := configHandlers_register E;
     configHandlers_unregister := configHandlers_unregister E;
     configHandlers_list := configHandlers_list E;
     status_snapshot := status_snapshot E |}.

Definition webview_env : env := with_webview sample_env (fun _ _ _ => None).

Definition webview_request (params : value) : value :=
  request_of "webview" params.

(** The URLs of a list of subscribers that are strings. *)
Definition all_strings (subs : list value) : Prop :=
  Forall (fun v => exists u, v = VStr u) subs.

(** ** The commands of the extension

    [src/commands/bridge.start.ts], the stop command and the status bar
    of the activation file. [global.bridgeInstance] is kept with the
    state its closure owns; the messages shown and the calls of
    [logState] are recorded in order. *)

Inductive notification : Type :=
| InformationMessage (text : jsstring)
| ErrorMessage (text : jsstring).

Record extension : Type := {
  (** [global.bridgeInstance], with the state of its server *)
  bridgeInstance : option (BridgeServerInstance * state);
  (** [global.bridgeConfig] *)
  bridgeConfig : option env;
  notifications : list notification;
  (** the calls [logState(type, context)] *)
  logged : list (jsstring * value);
  (** the disposables pushed on [context.subscriptions] *)
  subscriptions : nat;
  (** the calls of [server.listen] made by [startBridgeServer] *)
  listen_calls : nat;
  (** the calls of [server.close] made by [dispose] *)
  close_calls : nat
}.

(** The globals as the activation leaves them. *)
Definition activated (config : env) : extension :=
  {| bridgeInstance := None; bridgeConfig := Some config;
     notifications := []; logged := []; subscriptions := 0;
     listen_calls := 0; close_calls := 0 |}.

Definition report (n : notification) (type : string) (context : value)
  (x : extension) : extension :=
  {| bridgeInstance := bridgeInstance x;
     bridgeConfig := bridgeConfig x;
     notifications := notifications x ++ [n];
     logged := logged x ++ [(lit type, context)];
     subscriptions := subscriptions x;
     listen_calls := listen_calls x;
     close_calls := close_calls x |}.

(** [execute] of [clarityos.bridge.start], at the time [now]. *)
Definition bridge_start (now : Z) (x : extension) : extension :=
  match bridgeInstance x with
  | Some _ =>
      report (InformationMessage (lit "Bridge already running"))
        "bridge_already_running" (obj []) x
  | None =>
      match bridgeConfig x with
      | None =>
          report (ErrorMessage (lit "Bridge config not initialized"))
            "bridge_config_missing" (obj []) x
      | Some config =>
          match startBridgeServer now with
          | (Return instance, st) =>
              report
                (InformationMessage
                   (lit "ClarityOS Bridge started on port 9485"))
                "bridge_started" (obj [field "port" (VNum 9485)])
                {| bridgeInstance := Some (instance, st);
                   bridgeConfig := bridgeConfig x;
                   notifications := notifications x;
                   logged := logged x;
                   subscriptions := S (subscriptions x);
                   listen_calls := S (listen_calls x);
                   close_calls := close_calls x |}
          | (Throw error, _) =>
              match exn_message config error with
              | Return errorMessage =>
                  report
                    (ErrorMessage (lit "Failed to start bridge: "
                                   ++ errorMessage))
                    "bridge_start_error"
                    (obj [field "error" (VStr errorMessage)]) x
              | _ => x
              end
          | (Pending, _) => x
          end
      end
  end.

(** [execute] of [clarityos.bridge.stop]. *)
Definition bridge_stop (x : extension) : extension :=
  match bridgeInstance x with
  | None =>
      report (InformationMessage (lit "Bridge not running"))
        "bridge_not_running" (obj []) x
  | Some _ =>
      report (InformationMessage (lit "ClarityOS Bridge stopped"))
        "bridge_stopped" (obj [])
        {| bridgeInstance := None;
           bridgeConfig := bridgeConfig x;
           notifications := notifications x;
           logged := logged x;
           subscriptions := subscriptions x;
           listen_calls := listen_calls x;
           close_calls := S (close_calls x) |}
  end.

(** The server of the instance, while there is one, handles [ops]. *)
Definition bridge_activity (ops : list server_op) (x : extension)
  : extension :=
  match bridgeInstance x, bridgeConfig x with
  | Some (instance, st), Some config =>
      {| bridgeInstance := Some (instance, run_from config ops st);
         bridgeConfig := bridgeConfig x;
         notifications := notifications x;
         logged := logged x;
         subscriptions := subscriptions x;
         listen_calls := listen_calls x;
         close_calls := close_calls x |}
  | _, _ => x
  end.

Inductive command : Type :=
| StartCommand (now : Z)
| StopCommand
| Activity (ops : list server_op).

Definition run_command (x : extension) (c : command) : extension :=
  match c with
  | StartCommand now => bridge_start now x
  | StopCommand => bridge_stop x
  | Activity ops => bridge_activity ops x
  end.

Definition run_commands (cs : list command) (x : extension) : extension :=
  fold_left run_command cs x.

Definition is_running (x : extension) : bool :=
  match bridgeInstance x with Some _ => true | None => false end.

(** Whether the bridge runs after [cs], by the last start or stop. *)
Fixpoint running_after (cs : list command) (before : bool) : bool :=
  match cs with
  | [] => before
  | StartCommand _ :: rest => running_after rest true
  | StopCommand :: rest => running_after rest false
  | Activity _ :: rest => running_after rest before
  end.

(** The uptime shown by [updateStatusBar]. *)
Definition uptimeSeconds (now start : Z) : Z := ((now - start) / 1000)%Z.

Definition hours (now start : Z) : Z := (uptimeSeconds now start / 3600)%Z.

Definition minutes (now start : Z) : Z :=
  (Z.rem (uptimeSeconds now start) 3600 / 60)%Z.

Definition uptimeFormatted (E : env) (now start : Z) : jsstring :=
  if (0 <? hours now start)%Z
  then decimal E (hours now start) ++ lit "h "
       ++ decimal E (minutes now start) ++ lit "m"
  else decimal E (minutes now start) ++ lit "m".

(** [updateStatusBar]: the tooltip it sets. *)
Definition updateStatusBar (E : env) (now : Z) (x : extension)
  : jsstring :=
  match bridgeInstance x with
  | None =>
      lit "ClarityOS Bridge (stopped)" ++ [LF]
      ++ lit "Run: clarityos.bridge.start"
  | Some (instance, _) =>
      lit "ClarityOS Bridge" ++ [LF] ++ lit "Port: 9485" ++ [LF]
      ++ lit "Uptime: " ++ uptimeFormatted E now (startTime instance)
  end.

(** ** The HTML of a webview ([src/lib/webview.ts])

    [injectLocalCSS] and [convertResourcePaths]. The functions of [path]
    and [fs] they call and [webview.asWebviewUri] are fields of
    [webview_host]. *)

Record webview_host : Type := {
  (** [path.join(a, b)] *)
  path_join : jsstring -> jsstring -> jsstring;
  (** [path.dirname(p)] *)
  path_dirname : jsstring -> jsstring;
  (** [path.basename(p, ext)] *)
  path_basename : jsstring -> jsstring -> jsstring;
  (** [fs.existsSync(p)] *)
  existsSync : jsstring -> bool;
  (** [webview.asWebviewUri(vscode.Uri.file(p))] as a string *)
  asWebviewUri : jsstring -> jsstring
}.

Definition DOLLAR : N := 36.
Definition TAB : N := 9.
Definition GREATER_THAN : N := 62.

(** [s.indexOf(needle)], when there is an occurrence. *)
Fixpoint index_of (needle s : jsstring) : option nat :=
  if starts_with needle s then Some 0
  else match s with
       | [] => None
       | _ :: rest => option_map S (index_of needle rest)
       end.

(** [s.includes(needle)] *)
Definition includes_string (needle s : jsstring) : bool :=
  match index_of needle s with Some _ => true | None => false end.

(** GetSubstitution for a pattern that is a string: [$$] is a dollar,
    [$&] the match, [$`] what precedes it and [$'] what follows it; with
    no capture any other [$] stands for itself. *)
Fixpoint get_substitution (matched before after replacement : jsstring)
  : jsstring :=
  match replacement with
  | [] => []
  | c :: rest =>
      if N.eqb c DOLLAR then
        match rest with
        | d :: rest' =>
            if N.eqb d DOLLAR
            then DOLLAR :: get_substitution matched before after rest'
            else if N.eqb d 38
            then matched ++ get_substitution matched before after rest'
            else if N.eqb d 96
            then before ++ get_substitution matched before after rest'
            else if N.eqb d 39
            then after ++ get_substitution matched before after rest'
            else c :: get_substitution matched before after rest
        | [] => [c]
        end
      else c :: get_substitution matched before after rest
  end.

(** [s.replace(pattern, replacement)] with two strings: the first
    occurrence only. *)
Definition replace_first (pattern replacement s : jsstring) : jsstring :=
  match index_of pattern s with
  | None => s
  | Some i =>
      let before := firstn i s in
      let after := skipn (i + length pattern) s in
      before ++ get_substitution pattern before after replacement ++ after
  end.

(** Letters compared without case, as a regular expression with the flag
    [i] and without the flag [u] compares ASCII letters. *)
Definition fold_case (c : N) : N :=
  if ((97 <=? c) && (c <=? 122))%N then (c - 32)%N else c.

Fixpoint starts_with_ci (p s : jsstring) : bool :=
  match p, s with
  | [], _ => true
  | x :: p', y :: s' =>
      N.eqb (fold_case x) (fold_case y) && starts_with_ci p' s'
  | _ :: _, [] => false
  end.

(** [[^>]*>] from the start of [s]: up to the first [>], with it. *)
Fixpoint up_to_greater_than (s : jsstring) : option jsstring :=
  match s with
  | [] => None
  | c :: rest =>
      if N.eqb c GREATER_THAN then Some [c]
      else option_map (cons c) (up_to_greater_than rest)
  end.

(** [html.match(/(<html[^>]*>)/i)]: the text of the leftmost match. *)
Fixpoint match_html_tag (s : jsstring) : option jsstring :=
  match s with
  | [] => None
  | _ :: rest =>
      match (if starts_with_ci (lit "<html") s
             then up_to_greater_than (skipn 5 s) else None) with
      | Some tail => Some (firstn 5 s ++ tail)
      | None => match_html_tag rest
      end
  end.

Definition cssLink_of (cssUri : jsstring) : jsstring :=
  lit "<link rel=" ++ [QUOTE] ++ lit "stylesheet" ++ [QUOTE] ++ lit " href="
  ++ [QUOTE] ++ cssUri ++ [QUOTE] ++ lit ">".

Definition injectLocalCSS (W : webview_host) (html htmlPath : jsstring)
  : jsstring :=
  let htmlBaseName := path_basename W htmlPath (lit ".html") in
  let cssPath := path_join W (path_dirname W htmlPath)
                   (htmlBaseName ++ lit ".css") in
  if negb (existsSync W cssPath) then html
  else
    let cssUri := asWebviewUri W cssPath in
    let cssLink := cssLink_of cssUri in
    if includes_string (lit "<head>") html
    then replace_first (lit "<head>") (lit "<head>" ++ [LF; TAB] ++ cssLink)
           html
    else
      match
        (if includes_string (lit "<!DOCTYPE") html
            || includes_string (lit "<html") html
         then match_html_tag html else None)
      with
      | Some match0 => replace_first match0 (match0 ++ [LF] ++ cssLink) html
      | None => cssLink ++ [LF] ++ html
      end.

(** The value of an attribute from the start of [s]: the characters
    before the next double quote. *)
Fixpoint up_to_quote (s : jsstring) : option jsstring :=
  match s with
  | [] => None
  | c :: rest =>
      if N.eqb c QUOTE then Some []
      else option_map (cons c) (up_to_quote rest)
  end.

Definition match_attribute_named (attr s : jsstring)
  : option (jsstring * jsstring) :=
  if starts_with (attr ++ lit "=" ++ [QUOTE]) s
  then match up_to_quote (skipn (length attr + 2) s) with
       | Some (c :: relativePath) => Some (attr, c :: relativePath)
       | _ => None
       end
  else None.

(** The regular expression of [convertResourcePaths] at the start of
    [s]: [href] or [src], an equals sign, and between double quotes one
    or more characters that are not a double quote; the two groups. *)
Definition match_attribute (s : jsstring) : option (jsstring * jsstring) :=
  match match_attribute_named (lit "href") s with
  | Some groups => Some groups
  | None => match_attribute_named (lit "src") s
  end.

Definition attribute_text (attr relativePath : jsstring) : jsstring :=
  attr ++ lit "=" ++ [QUOTE] ++ relativePath ++ [QUOTE].

(** The callback of the replacement. *)
Definition convert_attribute (W : webview_host) (viewPath : jsstring)
  (attr relativePath : jsstring) : jsstring :=
  if starts_with (lit "http") relativePath
     || starts_with (lit "data:") relativePath
     || starts_with (lit "vscode-") relativePath
  then attribute_text attr relativePath
  else
    let absolutePath := path_join W viewPath relativePath in
    if negb (existsSync W absolutePath)
    then attribute_text attr relativePath
    else attr ++ lit "=" ++ [QUOTE] ++ asWebviewUri W absolutePath ++ [QUOTE].

(** The global replacement, from the left; [skip] counts the characters
    of the last match that are still to pass. *)
Fixpoint convert_from (W : webview_host) (viewPath : jsstring) (skip : nat)
  (s : jsstring) : jsstring :=
  match s with
  | [] => []
  | c :: rest =>
      match skip with
      | S k => convert_from W viewPath k rest
      | O =>
          match match_attribute s with
          | Some (attr, relativePath) =>
              convert_attribute W viewPath attr relativePath
              ++ convert_from W viewPath
                   (length attr + 2 + length relativePath) rest
          | None => c :: convert_from W viewPath 0 rest
          end
      end
  end.

Definition convertResourcePaths (W : webview_host) (html viewPath : jsstring)
  : jsstring :=
  convert_from W viewPath 0 html.

(** A view directory [/v] that holds [index.css] and [app.js]. *)
Definition sample_webview : webview_host :=
  {| path_join := fun a b => a ++ lit "/" ++ b;
     path_dirname := fun _ => lit "/v";
     path_basename := fun _ _ => lit "index";
     existsSync := fun p =>
       jsstring_eqb p (lit "/v/index.css") || jsstring_eqb p (lit "/v/app.js");
     asWebviewUri := fun p => lit "vscode-resource:" ++ p |}.

Definition SUBSCRIBE_A : jsstring :=
  dq "{'method':'subscribe','params':{'url':'http://a'}}".

(** A host whose parser knows the request that subscribes [http://a]. *)
Definition third_env : env :=
  host_with [(SUBSCRIBE_A, registry_request (Subscribe (lit "http://a")))] [].

(** ** What the client receives *)



(** An object with a [toString] property of its own that is no
    function, as [JSON.parse] builds it from a text with that key. *)
Definition UNPRINTABLE : value := obj [field "toString" (VNum 1)].

Definition EVAL_THROWS_UNPRINTABLE : jsstring :=
  dq "{'method':'eval','params':{'code':'throw {toString:1};'}}".

Definition EVAL_NEVER_SETTLES : jsstring :=
  dq "{'method':'eval','params':{'code':'await new Promise(() => {});'}}".

Definition SUBSCRIBE_UNPRINTABLE : jsstring :=
  dq "{'method':'subscribe','params':{'url':{'toString':1}}}".

Definition GET_OUTPUT_UNPRINTABLE : jsstring :=
  dq "{'method':'getOutput','params':{'lines':{'toString':1}}}".

Definition WEBVIEW_UNPRINTABLE : jsstring :=
  dq "{'method':'webview','params':{'viewName':{'toString':1}}}".

Definition hard_requests : list (jsstring * value) :=
  [(EVAL_40_PLUS_2, eval_request (lit "40+2"));
   (EVAL_THROWS_UNPRINTABLE, eval_request (lit "throw {toString:1};"));
   (EVAL_NEVER_SETTLES, eval_request (lit "await new Promise(() => {});"));
   (SUBSCRIBE_UNPRINTABLE,
    request_of "subscribe" (obj [field "url" UNPRINTABLE]));
   (GET_OUTPUT_UNPRINTABLE, getOutput_request UNPRINTABLE);
   (WEBVIEW_UNPRINTABLE,
    request_of "webview" (obj [field "viewName" UNPRINTABLE]))].

Definition hard_programs
  : list (jsstring * (list console_call * outcome value)) :=
  [(lit "return (40+2)", ([], Return (VNum 42)));
   (lit "throw {toString:1};", ([], Throw (ThrownValue UNPRINTABLE)));
   (lit "await new Promise(() => {});", ([], Pending))].

(** A host whose clients send requests that are hard to print. *)
Definition hard_env : env := host_with hard_requests hard_programs.

(** * Properties *)

(** ** Strings *)

Lemma jsstring_eqb_eq (a b : jsstring) : jsstring_eqb a b = true <-> a = b.
Proof.
  revert b; induction a as [|x a IH]; intros [|y b]; simpl;
    try (split; [discriminate | discriminate]); [tauto|].
  rewrite andb_true_iff, N.eqb_eq, IH.
  split; [intros [-> ->]; reflexivity | intros [= -> ->]; auto].
Qed.

Lemma jsstring_eqb_refl (a : jsstring) : jsstring_eqb a a = true.
Proof. apply jsstring_eqb_eq; reflexivity. Qed.

Lemma jsstring_eqb_neq (a b : jsstring) : a <> b -> jsstring_eqb a b = false.
Proof.
  intros H; destruct (jsstring_eqb a b) eqn:Heq; [|reflexivity].
  apply jsstring_eqb_eq in Heq; contradiction.
Qed.

Lemma includes_spec (c : N) (s : jsstring) : includes c s = true <-> In c s.
Proof.
  unfold includes; rewrite existsb_exists; split.
  - intros [x [Hin Heq]]; apply N.eqb_eq in Heq; subst; exact Hin.
  - intros Hin; exists c; split; [exact Hin | apply N.eqb_refl].
Qed.

Lemma starts_with_spec (p s : jsstring) :
  starts_with p s = true <-> exists post, s = p ++ post.
Proof.
  revert s; induction p as [|x p IH]; intros s.
  - simpl; split; [intros _; exists s; reflexivity | reflexivity].
  - destruct s as [|y s]; simpl.
    + split; [discriminate | intros [post H]; discriminate].
    + rewrite andb_true_iff, N.eqb_eq, IH; split.
      * intros [-> [post ->]]; exists post; reflexivity.
      * intros [post [= -> ->]]; split; [reflexivity|].
        exists post; reflexivity.
Qed.

Lemma boundary_after_spec (post : jsstring) :
  boundary_after post = true <-> begins_non_word post.
Proof.
  unfold begins_non_word; destruct post as [|c q]; simpl.
  - split; [left; reflexivity | reflexivity].
  - rewrite negb_true_iff; split.
    + intros H; right; exists c, q; auto.
    + intros [H | [c' [q' [[= -> ->] H]]]]; [discriminate | exact H].
Qed.

Lemma skipn_RETURN (post : jsstring) : skipn 6 (RETURN ++ post) = post.
Proof. reflexivity. Qed.

(** The scan of the regular expression finds a match exactly where the
    word occurs between two boundaries. *)
Lemma test_return_from_spec (s : jsstring) :
  forall prev_word,
    test_return_from prev_word s = true <->
    exists pre post,
      s = pre ++ RETURN ++ post
      /\ (pre = [] /\ prev_word = false
          \/ exists p c, pre = p ++ [c] /\ is_word_char c = false)
      /\ begins_non_word post.
Proof.
  induction s as [|c rest IH]; intros pw.
  - simpl; split; [discriminate|].
    intros [pre [post [H _]]]; destruct pre; discriminate.
  - cbn [test_return_from]; rewrite orb_true_iff, IH; split.
    + intros [H | [pre [post [Hs [Hpre Hpost]]]]].
      * rewrite !andb_true_iff, negb_true_iff in H.
        destruct H as [[Hpw Hst] Hb].
        apply starts_with_spec in Hst; destruct Hst as [post Hs].
        rewrite Hs, skipn_RETURN in Hb.
        exists [], post; repeat split; auto.
        apply boundary_after_spec; exact Hb.
      * exists (c :: pre), post; split; [rewrite Hs; reflexivity|].
        split; [|exact Hpost]; right.
        destruct Hpre as [[-> Hc] | [p [c' [-> Hc']]]].
        -- exists [], c; auto.
        -- exists (c :: p), c'; auto.
    + intros [pre [post [Hs [Hpre Hpost]]]].
      destruct Hpre as [[-> ->] | [p [c' [-> Hc']]]].
      * left; change ([] ++ RETURN ++ post) with (RETURN ++ post) in Hs.
        rewrite Hs, skipn_RETURN.
        rewrite !andb_true_iff; split; [split; reflexivity|].
        apply boundary_after_spec; exact Hpost.
      * right; destruct p as [|x p]; simpl in Hs; injection Hs as -> ->.
        -- exists [], post; repeat split; auto.
        -- exists (p ++ [c']), post; repeat split; auto.
           right; exists p, c'; auto.
Qed.

Lemma hasExplicitReturn_spec (code : jsstring) :
  hasExplicitReturn code = true <-> contains_return_keyword code.
Proof.
  unfold hasExplicitReturn, test_return, contains_return_keyword.
  rewrite test_return_from_spec; split.
  - intros [pre [post [Hs [Hpre Hpost]]]]; exists pre, post.
    repeat split; auto.
    destruct Hpre as [[-> _] | H]; [left; reflexivity | right; exact H].
  - intros [pre [post [Hs [Hpre Hpost]]]]; exists pre, post.
    repeat split; auto.
    destruct Hpre as [-> | H]; [left; auto | right; exact H].
Qed.

Lemma isSingleExpression_spec (code : jsstring) :
  isSingleExpression code = true <-> ~ In LF code /\ ~ In SEMICOLON code.
Proof.
  unfold isSingleExpression.
  rewrite andb_true_iff, !negb_true_iff, <- !not_true_iff_false, !includes_spec.
  tauto.
Qed.

(** The rule of the [eval] case, on the trimmed code. *)
Lemma implicit_return_rule (code : jsstring) :
  (~ In LF code /\ ~ In SEMICOLON code /\ ~ contains_return_keyword code
   -> implicit_return code = lit "return (" ++ code ++ lit ")")
  /\ (In LF code \/ In SEMICOLON code \/ contains_return_keyword code
      -> implicit_return code = code).
Proof.
  unfold implicit_return; split.
  - intros [Hlf [Hsc Hret]].
    assert (H1 : hasExplicitReturn code = false).
    { apply not_true_iff_false; rewrite hasExplicitReturn_spec; exact Hret. }
    assert (H2 : isSingleExpression code = true).
    { apply isSingleExpression_spec; auto. }
    rewrite H1, H2; reflexivity.
  - intros H.
    destruct (hasExplicitReturn code) eqn:H1; [reflexivity|].
    destruct (isSingleExpression code) eqn:H2; [|reflexivity].
    apply isSingleExpression_spec in H2; destruct H2 as [Hlf Hsc].
    apply not_true_iff_false in H1; rewrite hasExplicitReturn_spec in H1.
    tauto.
Qed.

(** ** The monad *)

Lemma bind_Return {A B} (m : M A) (k : A -> M B) st a st' :
  m st = (Return a, st') -> bind m k st = k a st'.
Proof. unfold bind; intros ->; reflexivity. Qed.

Lemma bind_Throw {A B} (m : M A) (k : A -> M B) st e st' :
  m st = (Throw e, st') -> bind m k st = (Throw e, st').
Proof. unfold bind; intros ->; reflexivity. Qed.

Lemma keeps_socket_ret {A} (a : A) : keeps_socket (ret a).
Proof. intros st; reflexivity. Qed.

Lemma keeps_socket_throw {A} (e : exn) : keeps_socket (@throw A e).
Proof. intros st; reflexivity. Qed.

Lemma keeps_socket_lift {A} (o : outcome A) : keeps_socket (lift o).
Proof. intros st; reflexivity. Qed.

Lemma keeps_socket_bind {A B} (m : M A) (k : A -> M B) :
  keeps_socket m -> (forall a, keeps_socket (k a)) -> keeps_socket (bind m k).
Proof.
  intros Hm Hk st; unfold bind.
  specialize (Hm st); destruct (m st) as [[a|e|] st1]; simpl in *.
  - rewrite Hk; exact Hm.
  - exact Hm.
  - exact Hm.
Qed.

Lemma keeps_socket_appendLine line : keeps_socket (appendLine line).
Proof. intros st; reflexivity. Qed.

Lemma keeps_socket_emit e : keeps_socket (emit e).
Proof. intros st; reflexivity. Qed.

Lemma keeps_socket_update_subscribers f : keeps_socket (update_subscribers f).
Proof. intros st; reflexivity. Qed.

Lemma keeps_socket_read_subscribers : keeps_socket read_subscribers.
Proof. intros st; reflexivity. Qed.

Lemma keeps_socket_read_history : keeps_socket read_history.
Proof. intros st; reflexivity. Qed.

Lemma keeps_socket_read base k : keeps_socket (read base k).
Proof. destruct base; intros st; reflexivity. Qed.

Lemma keeps_socket_destructure request : keeps_socket (destructure request).
Proof. destruct request; intros st; reflexivity. Qed.

Lemma keeps_socket_call_trim code : keeps_socket (call_trim code).
Proof. destruct code; intros st; reflexivity. Qed.

Lemma keeps_socket_forEach {A} (l : list A) (f : A -> M unit) :
  (forall x, keeps_socket (f x)) -> keeps_socket (forEach l f).
Proof.
  intros Hf; induction l as [|x l IH]; simpl.
  - apply keeps_socket_ret.
  - apply keeps_socket_bind; auto.
Qed.

Create HintDb frame.
#[export] Hint Resolve
  keeps_socket_ret keeps_socket_throw keeps_socket_lift
  keeps_socket_appendLine keeps_socket_emit keeps_socket_update_subscribers
  keeps_socket_read_subscribers keeps_socket_read_history keeps_socket_read
  keeps_socket_destructure keeps_socket_call_trim : frame.

Ltac frame :=
  repeat first
    [ progress intros
    | apply keeps_socket_bind
    | apply keeps_socket_forEach
    | solve [auto with frame]
    | match goal with
      | |- keeps_socket (if ?b then _ else _) => destruct b
      | |- keeps_socket (match ?x with _ => _ end) => destruct x
      end ].

Lemma keeps_socket_executeCommand E request :
  keeps_socket (executeCommand E request).
Proof.
  unfold executeCommand, case_restartExtension, case_eval, case_webview,
    case_registerConfig, case_unregisterConfig, case_listConfigs,
    case_subscribe, case_unsubscribe, case_listSubscribers, case_getOutput,
    case_status, case_default.
  frame.
Qed.

Lemma returns_bind {A B} (m : M A) (k : A -> M B) :
  returns m -> (forall a, returns (k a)) -> returns (bind m k).
Proof.
  intros Hm Hk st; unfold bind.
  destruct (Hm st) as [a Ha]; destruct (m st) as [[a'|e|] st1]; simpl in Ha;
    [|discriminate..].
  apply Hk.
Qed.

Lemma returns_appendLine line : returns (appendLine line).
Proof. intros st; exists tt; reflexivity. Qed.

Lemma returns_emit e : returns (emit e).
Proof. intros st; exists tt; reflexivity. Qed.

Lemma returns_on_socket op : returns (on_socket op).
Proof. intros st; exists tt; reflexivity. Qed.

Lemma returns_ret {A} (a : A) : returns (ret a).
Proof. intros st; exists a; reflexivity. Qed.

Lemma returns_forEach {A} (l : list A) (f : A -> M unit) :
  (forall x, returns (f x)) -> returns (forEach l f).
Proof.
  intros Hf; induction l as [|x l IH]; simpl.
  - apply returns_ret.
  - apply returns_bind; auto.
Qed.

Lemma returns_unit (m : M unit) st : returns m -> fst (m st) = Return tt.
Proof. intros H; destruct (H st) as [[] Ha]; exact Ha. Qed.

(** ** Dispatch *)

Lemma member_str_object request k s :
  member request k = VStr s -> exists fields, request = VObj fields.
Proof. destruct request; simpl; try discriminate; eauto. Qed.

Ltac enter H :=
  let fields := fresh "fields" in
  destruct (member_str_object _ _ _ H) as [fields ->];
  cbv [executeCommand destructure bind ret emit fst snd entered];
  rewrite H; reflexivity.

Lemma executeCommand_eval E request st :
  member request "method" = str "eval" ->
  executeCommand E request st
  = case_eval E (member request "params") (entered "eval" st).
Proof. intros H; enter H. Qed.

Lemma executeCommand_subscribe E request st :
  member request "method" = str "subscribe" ->
  executeCommand E request st
  = case_subscribe E (member request "params") (entered "subscribe" st).
Proof. intros H; enter H. Qed.

Lemma executeCommand_unsubscribe E request st :
  member request "method" = str "unsubscribe" ->
  executeCommand E request st
  = case_unsubscribe E (member request "params")
      (entered "unsubscribe" st).
Proof. intros H; enter H. Qed.

Lemma executeCommand_getOutput E request st :
  member request "method" = str "getOutput" ->
  executeCommand E request st
  = case_getOutput E (member request "params") (entered "getOutput" st).
Proof. intros H; enter H. Qed.

(** The [eval] case on a string: the trimmed code with its implicit
    return is run, its console lines are appended, and its completion is
    the completion of the command. *)
Lemma case_eval_string E cmdParams source st :
  member cmdParams "code" = VStr source ->
  fst (case_eval E cmdParams st)
  = snd (run_async_function E (eval_body source)).
Proof.
  intros H; destruct (member_str_object _ _ _ H) as [fields ->].
  unfold case_eval, read; rewrite H.
  cbv [bind ret call_trim]; fold (eval_body source).
  set (run := run_async_function E (eval_body source)).
  pose proof (returns_unit
                (forEach (fst run)
                   (fun call => appendLine (evalConsole E call)))
                st) as Hr.
  destruct (forEach (fst run) _ st) as [[[]|e|] st1]; simpl in Hr.
  - reflexivity.
  - discriminate Hr.
    apply returns_forEach; intros; apply returns_appendLine.
  - discriminate Hr.
    apply returns_forEach; intros; apply returns_appendLine.
Qed.

(** ** The implicit return of [eval] *)

(** C1 (as amended). For every [eval] request whose [code] is a string,
    the function that is run has for body the trimmed code wrapped as
    [return (<trimmed code>)] exactly when the trimmed code has no line
    feed, no semicolon and no whole word [return]; otherwise its body is
    the trimmed code as it is. The completion of the command is the
    completion of that function. The code [40+2] is run as
    [return (40+2)]. *)
Theorem eval_implicit_return_on_trimmed_code :
  forall E request source st,
    member request "method" = str "eval" ->
    member (member request "params") "code" = VStr source ->
    let code := trim source in
    fst (executeCommand E request st)
    = snd (run_async_function E (eval_body source))
    /\ (~ In LF code /\ ~ In SEMICOLON code /\ ~ contains_return_keyword code
        -> eval_body source = lit "return (" ++ code ++ lit ")")
    /\ (In LF code \/ In SEMICOLON code \/ contains_return_keyword code
        -> eval_body source = code)
    /\ eval_body (lit "40+2") = lit "return (40+2)".
Proof.
  intros E request source st Hmethod Hcode code.
  split; [|split; [|split]].
  - rewrite executeCommand_eval by exact Hmethod.
    apply case_eval_string; exact Hcode.
  - apply (implicit_return_rule code).
  - apply (implicit_return_rule code).
  - reflexivity.
Qed.

(** The request [eval 40+2] on the sample host, whose engine completes
    [return (40+2)] with 42. *)
Lemma eval_implicit_return_witness :
  member (eval_request (lit "40+2")) "method" = str "eval"
  /\ member (member (eval_request (lit "40+2")) "params") "code"
     = VStr (lit "40+2")
  /\ fst (executeCommand sample_env (eval_request (lit "40+2")) initial_state)
     = Return (VNum 42).
Proof.
  split; [reflexivity | split; [reflexivity|]].
  destruct (eval_implicit_return_on_trimmed_code
              sample_env (eval_request (lit "40+2")) (lit "40+2")
              initial_state eq_refl eq_refl) as [H _].
  rewrite H; reflexivity.
Defined.

(** A code string that contains a line feed and is wrapped all the
    same: [trim] removed the line feed before the tests. A code string
    with a semicolon that is not run verbatim: it is run trimmed. *)
Lemma eval_rule_on_raw_code_counterexample :
  In LF (lit "40+2" ++ [LF])
  /\ eval_body (lit "40+2" ++ [LF]) = lit "return (40+2)"
  /\ fst (executeCommand sample_env (eval_request (lit "40+2" ++ [LF]))
            initial_state)
     = Return (VNum 42)
  /\ In SEMICOLON (lit " throw new Error('boom'); ")
  /\ eval_body (lit " throw new Error('boom'); ")
     = lit "throw new Error('boom');"
  /\ eval_body (lit " throw new Error('boom'); ")
     <> lit " throw new Error('boom'); ".
Proof.
  split; [right; right; right; right; left; reflexivity|].
  split; [reflexivity|].
  split; [reflexivity|].
  split; [apply includes_spec; reflexivity|].
  split; [reflexivity | discriminate].
Qed.

(** ** The output history *)

Lemma last_n_length {A} (n : nat) (l : list A) :
  length (last_n n l) = Nat.min n (length l).
Proof. unfold last_n; rewrite length_skipn; lia. Qed.

Lemma last_n_all {A} (n : nat) (l : list A) :
  length l <= n -> last_n n l = l.
Proof.
  intros H; unfold last_n.
  replace (length l - n) with 0 by lia; reflexivity.
Qed.

Lemma last_n_min {A} (n : nat) (l : list A) :
  last_n (Nat.min n (length l)) l = last_n n l.
Proof. unfold last_n; f_equal; lia. Qed.

Lemma last_n_app_last_n {A} (n : nat) (a b : list A) :
  last_n n (last_n n a ++ b) = last_n n (a ++ b).
Proof.
  unfold last_n.
  rewrite !length_app, length_skipn, !skipn_app, skipn_skipn, length_skipn.
  f_equal; f_equal; lia.
Qed.

Lemma last_n_app_long {A} (n : nat) (a b : list A) :
  n <= length b -> last_n n (a ++ b) = last_n n b.
Proof.
  intros H; unfold last_n.
  rewrite length_app, skipn_app, skipn_all2 by lia.
  simpl; f_equal; lia.
Qed.

Lemma push_history_last_n (history : list jsstring) (line : jsstring) :
  length history <= CAPACITY ->
  push_history history line = last_n CAPACITY (history ++ [line]).
Proof.
  intros H; unfold push_history, last_n.
  rewrite length_app; simpl length.
  destruct (Nat.ltb_spec CAPACITY (length history + 1)) as [Hlt | Hge].
  - replace (length history + 1 - CAPACITY) with 1 by lia.
    destruct (history ++ [line]); reflexivity.
  - replace (length history + 1 - CAPACITY) with 0 by lia; reflexivity.
Qed.

Lemma push_history_bounded (history : list jsstring) (line : jsstring) :
  length history <= CAPACITY ->
  length (push_history history line) <= CAPACITY.
Proof.
  intros H; rewrite push_history_last_n by exact H.
  rewrite last_n_length; lia.
Qed.

Lemma append_all_bounded (ls history : list jsstring) :
  length history <= CAPACITY -> length (append_all history ls) <= CAPACITY.
Proof.
  revert history; induction ls as [|l ls IH]; intros history H; simpl.
  - exact H.
  - apply IH, push_history_bounded, H.
Qed.

Lemma append_all_last_n (ls history : list jsstring) :
  length history <= CAPACITY ->
  append_all history ls = last_n CAPACITY (history ++ ls).
Proof.
  revert history; induction ls as [|l ls IH]; intros history H; simpl.
  - rewrite app_nil_r; symmetry; apply last_n_all; exact H.
  - rewrite IH by (apply push_history_bounded; exact H).
    rewrite push_history_last_n by exact H.
    rewrite last_n_app_last_n, <- app_assoc; reflexivity.
Qed.

Lemma append_all_app (a b history : list jsstring) :
  append_all history (a ++ b) = append_all (append_all history a) b.
Proof. apply fold_left_app. Qed.

(** [slice(-n)] with [n] positive takes the last [n] elements. *)
Lemma slice_negative {A} (n : Z) (l : list A) :
  (0 < n)%Z -> slice (Finite (- n)) l = last_n (Z.to_nat n) l.
Proof.
  intros H; unfold slice, last_n.
  destruct (Z.ltb_spec (- n) 0) as [_ | Hge]; [|lia].
  f_equal; lia.
Qed.

(** C5. The history never grows past its capacity of 1000: over any
    sequence of appends from a history within the capacity the length
    stays within it, and one append either pushes the line at the tail
    or, on a full history, pushes it and evicts the head. *)
Theorem output_history_never_exceeds_capacity :
  forall (st : state) (ls : list jsstring) (line : jsstring),
    length (outputHistory st) <= CAPACITY ->
    CAPACITY = 1000
    /\ length (append_all (outputHistory st) ls) <= CAPACITY
    /\ length (outputHistory (snd (appendLine line st))) <= CAPACITY
    /\ (length (outputHistory st) < CAPACITY ->
        outputHistory (snd (appendLine line st)) = outputHistory st ++ [line])
    /\ (length (outputHistory st) = CAPACITY ->
        outputHistory (snd (appendLine line st))
        = tl (outputHistory st) ++ [line]).
Proof.
  intros st ls line H.
  split; [reflexivity|].
  split; [apply append_all_bounded; exact H|].
  split; [apply push_history_bounded; exact H|].
  simpl; unfold push_history; rewrite length_app; simpl length.
  split; intros Hlen.
  - destruct (Nat.ltb_spec CAPACITY (length (outputHistory st) + 1));
      [lia | reflexivity].
  - destruct (Nat.ltb_spec CAPACITY (length (outputHistory st) + 1));
      [|lia].
    destruct (outputHistory st) as [|x h]; [discriminate Hlen | reflexivity].
Qed.

(** A full history: the next append evicts its oldest line. *)
Lemma output_history_capacity_witness :
  length (outputHistory (state_with_history (repeat (lit "old") 1000)))
  <= CAPACITY
  /\ outputHistory
       (snd (appendLine (lit "new")
               (state_with_history (repeat (lit "old") 1000))))
     = repeat (lit "old") 999 ++ [lit "new"].
Proof.
  assert (H : length (outputHistory
                        (state_with_history (repeat (lit "old") 1000)))
              <= CAPACITY).
  { apply Nat.leb_le; vm_compute; reflexivity. }
  split; [exact H|].
  destruct (output_history_never_exceeds_capacity
              (state_with_history (repeat (lit "old") 1000)) []
              (lit "new") H) as [_ [_ [_ [_ Hfull]]]].
  rewrite Hfull; [reflexivity | vm_compute; reflexivity].
Defined.

(** ** [getOutput] *)

Lemma case_getOutput_lines E fields n st :
  (0 < n)%Z ->
  lookup (lit "lines") fields = Some (VNum n) ->
  fst (case_getOutput E (VObj fields) st)
  = Return
      (obj [field "output"
              (VArr (map VStr (last_n (Z.to_nat n) (outputHistory st))));
            field "total" (VNum (Z.of_nat (length (outputHistory st))))]).
Proof.
  intros Hn Hl.
  cbv [case_getOutput read member bind ret read_history lift fst snd].
  rewrite Hl; unfold or_else, truthy.
  destruct (Z.eqb_spec n 0) as [-> | _]; [lia|].
  cbv [negb to_integer negate]; rewrite slice_negative by exact Hn.
  reflexivity.
Qed.

Lemma case_getOutput_default E fields st :
  lookup (lit "lines") fields = None ->
  fst (case_getOutput E (VObj fields) st)
  = Return
      (obj [field "output" (VArr (map VStr (last_n 100 (outputHistory st))));
            field "total" (VNum (Z.of_nat (length (outputHistory st))))]).
Proof.
  intros Hl.
  cbv [case_getOutput read member bind ret read_history lift fst snd].
  rewrite Hl; cbv [or_else truthy to_integer negate].
  rewrite slice_negative by lia; reflexivity.
Qed.

(** C4 (as amended). For every state of the history and every positive
    [n], [getOutput] with [lines = n] returns the last [min n length]
    lines in insertion order and [total], the current length; without
    [lines] in the parameters it does so for [n = 100]; after more than
    1000 lines were appended to an empty history, [getOutput] with
    [lines = 1000] returns the most recent 1000 of them in order. *)
Theorem getOutput_returns_last_lines :
  forall E request fields st,
    member request "method" = str "getOutput" ->
    member request "params" = VObj fields ->
    let history := outputHistory st in
    let answer (n : nat) (ls : list jsstring) :=
      Return (obj [field "output" (VArr (map VStr (last_n n ls)));
                   field "total" (VNum (Z.of_nat (length history)))]) in
    (forall n, (0 < n)%Z -> lookup (lit "lines") fields = Some (VNum n) ->
       fst (executeCommand E request st)
       = answer (Nat.min (Z.to_nat n) (length history)) history)
    /\ (lookup (lit "lines") fields = None ->
        fst (executeCommand E request st)
        = answer (Nat.min 100 (length history)) history)
    /\ (forall ls, 1000 < length ls -> history = append_all [] ls ->
        lookup (lit "lines") fields = Some (VNum 1000) ->
        length history = 1000
        /\ fst (executeCommand E request st) = answer 1000 ls).
Proof.
  intros E request fields st Hmethod Hparams history answer.
  rewrite executeCommand_getOutput, Hparams by exact Hmethod.
  assert (Hh : outputHistory (entered "getOutput" st) = history)
    by reflexivity.
  split; [|split].
  - intros n Hn Hl.
    rewrite (case_getOutput_lines E fields n _ Hn Hl), Hh.
    unfold answer; rewrite last_n_min; reflexivity.
  - intros Hl.
    rewrite (case_getOutput_default E fields _ Hl), Hh.
    unfold answer; rewrite last_n_min; reflexivity.
  - intros ls Hlen Hls Hl.
    assert (Hlast : history = last_n 1000 ls).
    { rewrite Hls; apply (append_all_last_n ls []); apply Nat.le_0_l. }
    assert (Hlength : length history = 1000).
    { rewrite Hlast, last_n_length; lia. }
    split; [exact Hlength|].
    rewrite (case_getOutput_lines E fields 1000 _ eq_refl Hl), Hh.
    unfold answer.
    replace (Z.to_nat 1000) with 1000 by reflexivity.
    rewrite (last_n_all 1000 history) by lia.
    rewrite Hlast; reflexivity.
Qed.

(** Three lines in the history, the last two asked for. *)
Lemma getOutput_last_lines_witness :
  member (getOutput_request (VNum 2)) "method" = str "getOutput"
  /\ member (getOutput_request (VNum 2)) "params"
     = VObj [(lit "lines", VNum 2)]
  /\ fst (executeCommand sample_env (getOutput_request (VNum 2))
            (state_with_history [lit "a"; lit "b"; lit "c"]))
     = Return (obj [field "output" (VArr [str "b"; str "c"]);
                    field "total" (VNum 3)]).
Proof.
  split; [reflexivity | split; [reflexivity|]].
  destruct (getOutput_returns_last_lines
              sample_env (getOutput_request (VNum 2)) [(lit "lines", VNum 2)]
              (state_with_history [lit "a"; lit "b"; lit "c"])
              eq_refl eq_refl) as [H _].
  rewrite (H 2%Z eq_refl eq_refl); reflexivity.
Defined.

(** [lines = 0] is falsy, so the default of 100 applies: the one line of
    the history is returned, not the last [min 0 1 = 0] lines. *)
Lemma getOutput_zero_lines_counterexample :
  fst (executeCommand sample_env (getOutput_request (VNum 0))
         (state_with_history [lit "a"]))
  = Return (obj [field "output" (VArr [str "a"]); field "total" (VNum 1)])
  /\ last_n (Nat.min 0 (length [lit "a"])) [lit "a"] = [].
Proof. split; reflexivity. Qed.

(** ** The subscriber set *)

Lemma same_value_zero_string (u : jsstring) (v : value) :
  same_value_zero (VStr u) v = true <-> v = VStr u.
Proof.
  destruct v; simpl; try (split; [discriminate | discriminate]).
  rewrite jsstring_eqb_eq; split; [intros -> | intros [= ->]]; reflexivity.
Qed.

Lemma Set_has_string (u : jsstring) (s : list value) :
  Set_has (VStr u) s = true <-> In (VStr u) s.
Proof.
  unfold Set_has; rewrite existsb_exists; split.
  - intros [v [Hin Hv]]; apply same_value_zero_string in Hv; subst; exact Hin.
  - intros Hin; exists (VStr u); split; [exact Hin|].
    apply same_value_zero_string; reflexivity.
Qed.

Lemma Set_add_present (u : jsstring) (s : list value) :
  In (VStr u) s -> Set_add (VStr u) s = s.
Proof.
  intros H; unfold Set_add.
  apply Set_has_string in H; rewrite H; reflexivity.
Qed.

Lemma Set_delete_absent (u : jsstring) (s : list value) :
  ~ In (VStr u) s -> Set_delete (VStr u) s = s.
Proof.
  intros H; unfold Set_delete; induction s as [|v s IH]; cbn [filter].
  - reflexivity.
  - destruct (same_value_zero (VStr u) v) eqn:Hv; cbn [negb].
    + apply same_value_zero_string in Hv; subst; exfalso; apply H; left;
        reflexivity.
    + rewrite IH; [reflexivity|].
      intros Hin; apply H; right; exact Hin.
Qed.

Lemma Set_has_add (u v : jsstring) (s : list value) :
  Set_has (VStr u) (Set_add (VStr v) s)
  = if jsstring_eqb u v then true else Set_has (VStr u) s.
Proof.
  unfold Set_add; destruct (Set_has (VStr v) s) eqn:Hv.
  - destruct (jsstring_eqb u v) eqn:Huv; [|reflexivity].
    apply jsstring_eqb_eq in Huv; subst; exact Hv.
  - unfold Set_has; rewrite existsb_app; cbn [existsb same_value_zero].
    rewrite orb_false_r.
    destruct (jsstring_eqb u v); [apply orb_true_r | apply orb_false_r].
Qed.

Lemma Set_has_delete (u v : jsstring) (s : list value) :
  Set_has (VStr u) (Set_delete (VStr v) s)
  = if jsstring_eqb u v then false else Set_has (VStr u) s.
Proof.
  unfold Set_has, Set_delete; induction s as [|x s IH];
    cbn [filter existsb].
  - destruct (jsstring_eqb u v); reflexivity.
  - destruct (same_value_zero (VStr v) x) eqn:Hx; cbn [negb existsb].
    + apply same_value_zero_string in Hx; subst x.
      rewrite IH; cbn [same_value_zero].
      destruct (jsstring_eqb u v); reflexivity.
    + rewrite IH; destruct (jsstring_eqb u v) eqn:Huv; [|reflexivity].
      apply jsstring_eqb_eq in Huv; subst v; rewrite Hx; reflexivity.
Qed.

Lemma subscribe_step E (url : jsstring) st :
  url <> [] ->
  executeCommand E (registry_request (Subscribe url)) st
  = (Return
       (obj [field "success" (VBool true);
             field "message" (VStr (lit "Subscribed to " ++ url));
             field "subscribers"
               (VArr (Set_add (VStr url) (subscribers st)))]),
     snd (appendLine (CHECK_MARK :: lit " Subscribed: " ++ url)
            (snd (update_subscribers (Set_add (VStr url))
                    (entered "subscribe" st))))).
Proof.
  intros Hurl; rewrite executeCommand_subscribe by reflexivity.
  destruct url as [|c url]; [contradiction|]; reflexivity.
Qed.

Lemma unsubscribe_step E (url : jsstring) st :
  url <> [] ->
  executeCommand E (registry_request (Unsubscribe url)) st
  = (Return
       (obj [field "success" (VBool true);
             field "message" (VStr (lit "Unsubscribed from " ++ url))]),
     snd (appendLine (CHECK_MARK :: lit " Unsubscribed: " ++ url)
            (snd (update_subscribers (Set_delete (VStr url))
                    (entered "unsubscribe" st))))).
Proof.
  intros Hurl; rewrite executeCommand_unsubscribe by reflexivity.
  destruct url as [|c url]; [contradiction|]; reflexivity.
Qed.

Lemma run_registry_membership E (ops : list registry_op) :
  Forall (fun op => op_url op <> []) ops ->
  forall st u,
    Set_has (VStr u) (subscribers (run_registry E ops st))
    = subscribed_after ops u (Set_has (VStr u) (subscribers st)).
Proof.
  induction 1 as [|op ops Hop _ IH]; intros st u; simpl.
  - reflexivity.
  - destruct op as [url | url]; simpl in Hop; rewrite IH.
    + rewrite subscribe_step by exact Hop; simpl.
      rewrite Set_has_add; reflexivity.
    + rewrite unsubscribe_step by exact Hop; simpl.
      rewrite Set_has_delete; reflexivity.
Qed.

(** C6. [subscribe] of a URL already in the set and [unsubscribe] of a
    URL not in it leave the set as it is and return success; over any
    sequence of such requests with non-empty URLs, whether a URL is in
    the final set is decided by set semantics: by the last request that
    names it, and by the initial set when none does. *)
Theorem subscribe_unsubscribe_idempotent :
  forall E st (url : jsstring),
    url <> [] ->
    (In (VStr url) (subscribers st) ->
     fst (executeCommand E (registry_request (Subscribe url)) st)
     = Return (obj [field "success" (VBool true);
                    field "message" (VStr (lit "Subscribed to " ++ url));
                    field "subscribers" (VArr (subscribers st))])
     /\ subscribers
          (snd (executeCommand E (registry_request (Subscribe url)) st))
        = subscribers st)
    /\ (~ In (VStr url) (subscribers st) ->
        fst (executeCommand E (registry_request (Unsubscribe url)) st)
        = Return (obj [field "success" (VBool true);
                       field "message"
                         (VStr (lit "Unsubscribed from " ++ url))])
        /\ subscribers
             (snd (executeCommand E (registry_request (Unsubscribe url)) st))
           = subscribers st)
    /\ (forall ops u,
          Forall (fun op => op_url op <> []) ops ->
          Set_has (VStr u) (subscribers (run_registry E ops st))
          = subscribed_after ops u (Set_has (VStr u) (subscribers st))).
Proof.
  intros E st url Hurl; split; [|split].
  - intros Hin; rewrite subscribe_step by exact Hurl; simpl.
    rewrite Set_add_present by exact Hin; split; reflexivity.
  - intros Hout; rewrite unsubscribe_step by exact Hurl; simpl.
    rewrite Set_delete_absent by exact Hout; split; reflexivity.
  - intros ops u Hops; apply run_registry_membership; exact Hops.
Qed.

(** A set that holds [http://a]: subscribing it again changes nothing. *)
Lemma subscribe_idempotent_witness :
  lit "http://a" <> []
  /\ In (str "http://a") (subscribers (state_with_subscribers [str "http://a"]))
  /\ subscribers
       (snd (executeCommand sample_env
               (registry_request (Subscribe (lit "http://a")))
               (state_with_subscribers [str "http://a"])))
     = [str "http://a"].
Proof.
  assert (Hurl : lit "http://a" <> []) by discriminate.
  assert (Hin : In (str "http://a")
                   (subscribers (state_with_subscribers [str "http://a"])))
    by (left; reflexivity).
  split; [exact Hurl | split; [exact Hin|]].
  destruct (subscribe_unsubscribe_idempotent
              sample_env (state_with_subscribers [str "http://a"])
              (lit "http://a") Hurl) as [H _].
  destruct (H Hin) as [_ Hsubs]; rewrite Hsubs; reflexivity.
Defined.

(** ** The listener of ['data'] *)

Lemma app_two {A} (l : list A) (x y : A) : (l ++ [x]) ++ [y] = l ++ [x; y].
Proof. rewrite <- app_assoc; reflexivity. Qed.


Lemma respond_run E result st :
  fst (respond E result st) = Return tt
  /\ socket (snd (respond E result st))
     = socket st ++ [SocketWrite (JSON_stringify E (response_for result))].
Proof.
  unfold respond, response_for.
  destruct (truthy result && typeof_object result
            && has_property "error" result); split; reflexivity.
Qed.

(** One run of the listener, by the outcomes of the parser and of the
    dispatcher. *)
Lemma on_data_run E data st :
  match JSON_parse E data with
  | Throw error => on_data E data st = on_data_catch E error st
  | Pending => on_data E data st = (Pending, st)
  | Return request =>
      match executeCommand E request (logged_input E request st) with
      | (Return result, st2) =>
          on_data E data st = on_socket SocketEnd (snd (respond E result st2))
      | (Throw error, st2) => on_data E data st = on_data_catch E error st2
      | (Pending, st2) => on_data E data st = (Pending, st2)
      end
  end.
Proof.
  cbv [on_data try_catch on_data_try bind lift logged_input appendLine
         snd fst].
  destruct (JSON_parse E data) as [request | error |]; [|reflexivity..].
  destruct (executeCommand E request _) as [[result | error |] st2];
    [|reflexivity..].
  destruct (respond_run E result st2) as [Hr _].
  destruct (respond E result st2) as [[[]|e|] st3]; simpl in Hr;
    [reflexivity | discriminate..].
Qed.

Lemma on_data_returned E data request st result :
  JSON_parse E data = Return request ->
  fst (executeCommand E request (logged_input E request st)) = Return result ->
  socket (snd (on_data E data st))
  = socket st ++ [SocketWrite (JSON_stringify E (response_for result));
                  SocketEnd].
Proof.
  intros Hparse Hret.
  pose proof (on_data_run E data st) as H; rewrite Hparse in H.
  pose proof (keeps_socket_executeCommand E request
                (logged_input E request st)) as Hk.
  destruct (executeCommand E request _) as [[result' | error |] st2];
    simpl in Hret, Hk; [|discriminate..].
  injection Hret as ->; rewrite H; simpl.
  destruct (respond_run E result st2) as [_ ->].
  rewrite Hk, app_two; reflexivity.
Qed.


Lemma on_data_thrown E data request st error :
  JSON_parse E data = Return request ->
  fst (executeCommand E request (logged_input E request st)) = Throw error ->
  on_data E data st
  = on_data_catch E error
      (snd (executeCommand E request (logged_input E request st))).
Proof.
  intros Hparse Hthrow.
  pose proof (on_data_run E data st) as H; rewrite Hparse in H.
  destruct (executeCommand E request _) as [[result | error' |] st2];
    simpl in Hthrow; [discriminate | | discriminate].
  injection Hthrow as ->; exact H.
Qed.














(** ** Failures of the dispatcher *)




(** ** Results that carry an [error] *)

Lemma response_for_error_object fields e :
  lookup (lit "error") fields = Some e ->
  response_for (VObj fields) = obj [field "ok" (VBool false); field "error" e].
Proof.
  intros H; unfold response_for, has_property, member.
  cbn [truthy typeof_object].
  rewrite H; reflexivity.
Qed.

(** C10. Whenever the dispatcher returns an object with an [error]
    property, the client is sent [{ ok: false, error: <that property> }]
    and nothing else of the result; so it is for an [eval] whose code
    completes normally with such an object. *)
Theorem error_shaped_result_is_reported_as_failure :
  forall E data request st fields e,
    JSON_parse E data = Return request ->
    lookup (lit "error") fields = Some e ->
    let failure :=
      socket st
      ++ [SocketWrite
            (JSON_stringify E
               (obj [field "ok" (VBool false); field "error" e]));
          SocketEnd] in
    (fst (executeCommand E request (logged_input E request st))
     = Return (VObj fields) ->
     socket (snd (on_data E data st)) = failure)
    /\ (forall source,
           member request "method" = str "eval" ->
           member (member request "params") "code" = VStr source ->
           snd (run_async_function E (eval_body source))
           = Return (VObj fields) ->
           socket (snd (on_data E data st)) = failure).
Proof.
  intros E data request st fields e Hparse Herror failure.
  assert (Hmain : fst (executeCommand E request (logged_input E request st))
                  = Return (VObj fields) ->
                  socket (snd (on_data E data st)) = failure).
  { intros Hret.
    rewrite (on_data_returned E data request st _ Hparse Hret).
    rewrite (response_for_error_object fields e Herror); reflexivity. }
  split; [exact Hmain|].
  intros source Hmethod Hcode Hrun; apply Hmain.
  rewrite executeCommand_eval by exact Hmethod.
  rewrite (case_eval_string E _ source _ Hcode); exact Hrun.
Qed.

(** The code [({error:1,free:0})] completes with an object; the client
    is told of a failure whose error is 1, and [free] is not sent. *)
Lemma error_shaped_result_witness :
  JSON_parse sample_env EVAL_ERROR_OBJECT
  = Return (eval_request (lit "({error:1,free:0})"))
  /\ lookup (lit "error") [(lit "error", VNum 1); (lit "free", VNum 0)]
     = Some (VNum 1)
  /\ fst (executeCommand sample_env (eval_request (lit "({error:1,free:0})"))
            (logged_input sample_env
               (eval_request (lit "({error:1,free:0})")) initial_state))
     = Return (VObj [(lit "error", VNum 1); (lit "free", VNum 0)])
  /\ socket (snd (on_data sample_env EVAL_ERROR_OBJECT initial_state))
     = [SocketWrite (dq "{'ok':false,'error':1}"); SocketEnd].
Proof.
  split; [reflexivity | split; [reflexivity | split; [reflexivity|]]].
  destruct (error_shaped_result_is_reported_as_failure
              sample_env EVAL_ERROR_OBJECT
              (eval_request (lit "({error:1,free:0})")) initial_state
              [(lit "error", VNum 1); (lit "free", VNum 0)] (VNum 1)
              eq_refl eq_refl) as [H _].
  rewrite (H eq_refl); reflexivity.
Defined.

(** ** Unknown methods *)

Lemma executeCommand_default E request st :
  request <> VUndefined -> request <> VNull ->
  (forall label, In label CASES ->
     is_case (member request "method") label = false) ->
  executeCommand E request st
  = case_default E (member request "method")
      (snd (emit (Progress (Executing (member request "method"))) st)).
Proof.
  intros Hu Hn Hcases.
  unfold executeCommand.
  assert (Hd : destructure request st
               = (Return (member request "method", member request "params"),
                  st)).
  { destruct request; try contradiction; reflexivity. }
  rewrite (bind_Return _ _ _ _ _ Hd); cbn [fst snd].
  unfold bind at 1; cbn [emit].
  rewrite !Hcases by (unfold CASES; simpl; tauto).
  reflexivity.
Qed.

(** C3, on the code. A request whose method is none of the labels of the
    [switch] is answered [{ ok: false, error: 'Unknown method: <method>' }],
    with the method as the template literal prints it; a method that
    cannot be printed makes the dispatcher throw. The dispatcher did
    return the list [available] with its result, but the listener
    forwards the [error] property alone, and [available] itself lacks
    [getOutput], which the [switch] handles. *)
Theorem unknown_method_response_omits_method_list :
  forall E data request st,
    JSON_parse E data = Return request ->
    request <> VUndefined -> request <> VNull ->
    (forall label, In label CASES ->
       is_case (member request "method") label = false) ->
    let method := member request "method" in
    (forall name,
        to_string E method = Return name ->
        fst (executeCommand E request (logged_input E request st))
        = Return (obj [field "error" (VStr (lit "Unknown method: " ++ name));
                       field "available" (VArr (map str AVAILABLE));
                       field "hint"
                         (VStr (lit "Run " ++ [QUOTE] ++ lit "vscode --help"
                                ++ [QUOTE] ++ lit " for examples"))])
        /\ socket (snd (on_data E data st))
           = socket st
             ++ [SocketWrite
                   (JSON_stringify E
                      (obj [field "ok" (VBool false);
                            field "error"
                              (VStr (lit "Unknown method: " ++ name))]));
                 SocketEnd])
    /\ (forall e,
           to_string E method = Throw e ->
           fst (executeCommand E request (logged_input E request st))
           = Throw e)
    /\ In "getOutput"%string CASES
    /\ ~ In "getOutput"%string AVAILABLE.
Proof.
  intros E data request st Hparse Hu Hn Hcases method.
  assert (Hrun : fst (executeCommand E request (logged_input E request st))
                 = fst (case_default E method
                          (snd (emit (Progress (Executing method))
                                  (logged_input E request st))))).
  { rewrite executeCommand_default by assumption; reflexivity. }
  split; [|split].
  - intros name Hname.
    assert (Hret : fst (executeCommand E request
                          (logged_input E request st))
                   = Return
                       (obj [field "error"
                               (VStr (lit "Unknown method: " ++ name));
                             field "available" (VArr (map str AVAILABLE));
                             field "hint"
                               (VStr (lit "Run " ++ [QUOTE]
                                      ++ lit "vscode --help"
                                      ++ [QUOTE] ++ lit " for examples"))])).
    { rewrite Hrun; unfold case_default, bind, lift; rewrite Hname.
      reflexivity. }
    split; [exact Hret|].
    rewrite (on_data_returned E data request st _ Hparse Hret).
    reflexivity.
  - intros e He; rewrite Hrun; unfold case_default, bind, lift.
    rewrite He; reflexivity.
  - split; [unfold CASES; simpl; tauto|].
    unfold AVAILABLE; simpl; intros H.
    repeat (destruct H as [H | H]; [discriminate H|]); exact H.
Qed.

(** The request [nope] on the sample host. *)
Lemma unknown_method_witness :
  JSON_parse sample_env UNKNOWN_METHOD = Return (request_of "nope" (obj []))
  /\ request_of "nope" (obj []) <> VUndefined
  /\ request_of "nope" (obj []) <> VNull
  /\ (forall label, In label CASES ->
        is_case (member (request_of "nope" (obj [])) "method") label = false)
  /\ socket (snd (on_data sample_env UNKNOWN_METHOD initial_state))
     = [SocketWrite (dq "{'ok':false,'error':'Unknown method: nope'}");
        SocketEnd].
Proof.
  assert (Hcases : forall label, In label CASES ->
            is_case (member (request_of "nope" (obj [])) "method") label
            = false).
  { intros label H; unfold CASES in H; simpl in H.
    repeat (destruct H as [<- | H]; [reflexivity|]); contradiction. }
  split; [reflexivity|].
  split; [discriminate|].
  split; [discriminate|].
  split; [exact Hcases|].
  destruct (unknown_method_response_omits_method_list
              sample_env UNKNOWN_METHOD (request_of "nope" (obj []))
              initial_state eq_refl ltac:(discriminate) ltac:(discriminate)
              Hcases) as [H _].
  destruct (H (lit "nope") eq_refl) as [_ Hs].
  rewrite Hs; reflexivity.
Defined.

(** ** [broadcast] *)

Lemma forEach_emit {A} (l : list A) (f : A -> effect) st :
  forEach l (fun x => emit (f x)) st
  = (Return tt,
     {| subscribers := subscribers st;
        outputHistory := outputHistory st;
        channel := channel st;
        effects := effects st ++ map f l;
        socket := socket st |}).
Proof.
  revert st; induction l as [|x l IH]; intros st; cbn [forEach map].
  - rewrite app_nil_r; destruct st; reflexivity.
  - unfold bind; cbn [emit]; rewrite IH; cbn.
    rewrite <- app_assoc; reflexivity.
Qed.







(** ** Starting the server *)

(** The port is taken: [startBridgeServer] has returned its instance all
    the same; no error reaches its caller. *)
Lemma start_on_bound_port_counterexample :
  fst (start sample_env 1700000000000
         (ListenError (str "EADDRINUSE")
            (ErrorObject (lit "Error")
               (lit "listen EADDRINUSE: address already in use :::9485"))))
  = Return {| startTime := 1700000000000 |}.
Proof. reflexivity. Qed.

(** C8 (as amended). [startBridgeServer] does not fail when the port is
    already bound: it returns its instance, and the error arrives later
    at the server's ['error'] listener. There the code [EADDRINUSE] is
    told apart from every other error: it is logged as [Port 9485 already
    in use] followed by the command that frees the port, while any other
    error is logged as one [Server error: ...] line with the error as
    the template literal prints it, so that the two histories always
    differ. *)
Theorem bind_error_is_logged_with_remediation :
  forall E now code error,
    is_case code "EADDRINUSE" = false ->
    let in_use := start E now (ListenError (str "EADDRINUSE") error) in
    let other := start E now (ListenError code error) in
    fst in_use = Return {| startTime := now |}
    /\ outputHistory (snd in_use)
       = BANNER ++ [HEAVY_X :: lit " Port 9485 already in use";
                    lit "Run: lsof -ti :9485 | xargs kill -9"]
    /\ fst other = Return {| startTime := now |}
    /\ (forall text,
           exn_to_string E error = Return text ->
           outputHistory (snd other)
           = BANNER ++ [HEAVY_X :: lit " Server error: " ++ text])
    /\ outputHistory (snd in_use) <> outputHistory (snd other).
Proof.
  intros E now code error Hcode in_use other; subst in_use other.
  unfold start, startBridgeServer, on_listen_result, on_server_error.
  rewrite Hcode.
  split; [reflexivity|].
  split; [reflexivity|].
  split; [reflexivity|].
  split.
  - intros text Htext; unfold bind, lift; rewrite Htext; reflexivity.
  - unfold bind at 3, lift.
    destruct (exn_to_string E error) as [text | e |]; intros H;
      apply (f_equal (@length jsstring)) in H; discriminate H.
Qed.

(** The port taken, against a refused permission. *)
Lemma bind_error_witness :
  is_case (str "EACCES") "EADDRINUSE" = false
  /\ outputHistory
       (snd (start sample_env 0
               (ListenError (str "EADDRINUSE")
                  (ErrorObject (lit "Error") (lit "listen EADDRINUSE")))))
     = BANNER ++ [HEAVY_X :: lit " Port 9485 already in use";
                  lit "Run: lsof -ti :9485 | xargs kill -9"].
Proof.
  split; [reflexivity|].
  destruct (bind_error_is_logged_with_remediation
              sample_env 0 (str "EACCES")
              (ErrorObject (lit "Error") (lit "listen EADDRINUSE")) eq_refl)
    as [_ [H _]].
  exact H.
Defined.

(** * Further properties of the server *)

(** ** What every operation preserves *)

Lemma preserves_ret {A} P (a : A) : preserves P (ret a).
Proof. intros st H; exact H. Qed.

Lemma preserves_throw {A} P (e : exn) : preserves P (@throw A e).
Proof. intros st H; exact H. Qed.

Lemma preserves_lift {A} P (o : outcome A) : preserves P (lift o).
Proof. intros st H; exact H. Qed.

Lemma preserves_bind {A B} P (m : M A) (k : A -> M B) :
  preserves P m -> (forall a, preserves P (k a)) -> preserves P (bind m k).
Proof.
  intros Hm Hk st H; unfold bind.
  specialize (Hm st H); destruct (m st) as [[a|e|] st1]; simpl in *.
  - apply Hk; exact Hm.
  - exact Hm.
  - exact Hm.
Qed.

Lemma preserves_detached {A} P (m : M A) :
  preserves P m -> preserves P (detached m).
Proof. intros Hm st H; exact (Hm st H). Qed.

Lemma preserves_try_catch {A} P (body : M A) (handler : exn -> M A) :
  preserves P body -> (forall e, preserves P (handler e)) ->
  preserves P (try_catch body handler).
Proof.
  intros Hb Hh st H; unfold try_catch.
  specialize (Hb st H); destruct (body st) as [[a|e|] st1]; simpl in *.
  - exact Hb.
  - apply Hh; exact Hb.
  - exact Hb.
Qed.

Lemma preserves_forEach {A} P (l : list A) (f : A -> M unit) :
  (forall x, preserves P (f x)) -> preserves P (forEach l f).
Proof.
  intros Hf; induction l as [|x l IH]; simpl.
  - apply preserves_ret.
  - apply preserves_bind; auto.
Qed.

Lemma preserves_read P base k : preserves P (read base k).
Proof. destruct base; intros st H; exact H. Qed.

Lemma preserves_destructure P request : preserves P (destructure request).
Proof. destruct request; intros st H; exact H. Qed.

Lemma preserves_call_trim P code : preserves P (call_trim code).
Proof. destruct code; intros st H; exact H. Qed.

Lemma preserves_read_subscribers P : preserves P read_subscribers.
Proof. intros st H; exact H. Qed.

Lemma preserves_read_history P : preserves P read_history.
Proof. intros st H; exact H. Qed.

Create HintDb keep.
#[export] Hint Resolve
  preserves_ret preserves_throw preserves_lift preserves_read
  preserves_destructure preserves_call_trim preserves_read_subscribers
  preserves_read_history : keep.

Ltac keep_with tac :=
  repeat first
    [ match goal with |- forall _, _ => intro end
    | tac
    | solve [auto with keep]
    | apply preserves_bind
    | apply preserves_forEach
    | apply preserves_try_catch
    | match goal with
      | |- preserves _ (detached _) => apply preserves_detached
      | |- preserves _ (if ?b then _ else _) => destruct b
      | |- preserves _ (match ?x with _ => _ end) => destruct x
      end ].

Ltac keep := keep_with fail.

(** [executeCommand] either fails on the destructuring of a [null] or
    [undefined] request, or dispatches on its method. *)
Lemma executeCommand_nullish E request st :
  executeCommand E request st
  = (Throw (EngineTypeError (DestructureNullish request)), st)
  \/ executeCommand E request st
     = dispatch E (member request "method") (member request "params") st.
Proof. destruct request; (left; reflexivity) || (right; reflexivity). Qed.

Section Preservation.
Variable P : state -> Prop.
Hypothesis P_appendLine : forall line, preserves P (appendLine line).
Hypothesis P_emit : forall e, preserves P (emit e).
Hypothesis P_on_socket : forall op, preserves P (on_socket op).
Hypothesis P_accept : preserves P accept.
Hypothesis P_update : forall f, preserves P (update_subscribers f).

(** Away from [subscribe] and [unsubscribe], nothing needs to be known
    of [update_subscribers]. *)
Lemma preserves_executeCommand_other E request :
  is_case (member request "method") "subscribe" = false ->
  is_case (member request "method") "unsubscribe" = false ->
  preserves P (executeCommand E request).
Proof using P_appendLine P_emit.
  intros Hs Hu st H.
  destruct (executeCommand_nullish E request st) as [Hn | Hd].
  - rewrite Hn; exact H.
  - rewrite Hd; clear Hd; revert st H.
    change (preserves P (dispatch E (member request "method")
                           (member request "params"))).
    unfold dispatch; rewrite Hs, Hu; cbv beta iota.
    unfold case_restartExtension, case_eval, case_webview,
      case_registerConfig, case_unregisterConfig, case_listConfigs,
      case_listSubscribers, case_getOutput, case_status, case_default.
    keep.
Qed.

Lemma preserves_executeCommand E request :
  preserves P (executeCommand E request).
Proof using P_appendLine P_emit P_update.
  unfold executeCommand, case_restartExtension, case_eval, case_webview,
    case_registerConfig, case_unregisterConfig, case_listConfigs,
    case_subscribe, case_unsubscribe, case_listSubscribers, case_getOutput,
    case_status, case_default.
  keep.
Qed.

Lemma preserves_on_data E data : preserves P (on_data E data).
Proof using P_appendLine P_emit P_update P_on_socket.
  unfold on_data, on_data_try, on_data_catch, respond.
  keep_with ltac:(apply preserves_executeCommand).
Qed.

Lemma preserves_handleConnection E events :
  preserves P (handleConnection E events).
Proof using P_appendLine P_emit P_update P_on_socket P_accept.
  unfold handleConnection, on_socket_event, on_error.
  keep_with ltac:(apply preserves_on_data).
Qed.

Lemma preserves_server_step E op : preserves P (server_step E op).
Proof using P_appendLine P_emit P_update P_on_socket P_accept.
  destruct op; cbn [server_step].
  - apply preserves_handleConnection.
  - unfold broadcast; keep.
  - unfold settle_all, settle, fetch_catch; keep.
  - unfold on_listen_result, on_listening, on_server_error; keep.
  - unfold dispose; keep.
Qed.

Lemma preserves_run_from E ops :
  forall st, P st -> P (run_from E ops st).
Proof using P_appendLine P_emit P_update P_on_socket P_accept.
  unfold run_from; induction ops as [|op ops IH]; intros st H; simpl.
  - exact H.
  - apply IH, preserves_server_step, H.
Qed.
End Preservation.

(** ** The history and the channel *)

Lemma appendLine_mirrors line :
  preserves history_mirrors_channel (appendLine line).
Proof.
  intros st H; unfold history_mirrors_channel in *; simpl.
  rewrite H, push_history_last_n by (rewrite last_n_length; lia).
  apply last_n_app_last_n.
Qed.

(** X1. From the start of the server on, whatever connections,
    broadcasts, settlements and lifecycle events follow, the output
    history is the last 1000 of the lines the channel received, in the
    same order; in particular it never holds more than 1000 lines. *)
Theorem server_history_is_tail_of_channel :
  forall E now ops,
    let st := run_server E now ops in
    outputHistory st = last_n CAPACITY (channel st)
    /\ length (outputHistory st) <= CAPACITY.
Proof.
  intros E now ops st.
  assert (H : history_mirrors_channel st).
  { unfold st, run_server.
    apply (preserves_run_from history_mirrors_channel).
    - apply appendLine_mirrors.
    - intros e s Hs; exact Hs.
    - intros op s Hs; exact Hs.
    - intros s Hs; exact Hs.
    - intros f s Hs; exact Hs.
    - reflexivity. }
  split; [exact H|].
  rewrite H, last_n_length; lia.
Qed.

(** ** Who changes the subscribers *)

Lemma on_data_catch_subscribers E error st :
  subscribers (snd (on_data_catch E error st)) = subscribers st.
Proof.
  unfold on_data_catch, bind, lift.
  destruct (exn_message E error); reflexivity.
Qed.

Lemma on_data_subscribers E data st :
  match JSON_parse E data with
  | Throw _ | Pending =>
      subscribers (snd (on_data E data st)) = subscribers st
  | Return request =>
      subscribers (snd (on_data E data st))
      = subscribers (snd (executeCommand E request (logged_input E request st)))
  end.
Proof.
  pose proof (on_data_run E data st) as H.
  destruct (JSON_parse E data) as [request | error |].
  - destruct (executeCommand E request _) as [[result | error |] st2];
      rewrite H; [| apply on_data_catch_subscribers | reflexivity].
    simpl; unfold respond.
    destruct (truthy result && typeof_object result
              && has_property "error" result); reflexivity.
  - rewrite H; apply on_data_catch_subscribers.
  - rewrite H; reflexivity.
Qed.

(** X2. A chunk that is not JSON, or whose request has a method other
    than [subscribe] and [unsubscribe], leaves the subscriber set as it
    is, whatever the request does otherwise and also when it fails. *)
Theorem only_registry_methods_change_subscribers :
  forall E data st,
    (forall request,
        JSON_parse E data = Return request ->
        is_case (member request "method") "subscribe" = false
        /\ is_case (member request "method") "unsubscribe" = false) ->
    subscribers (snd (on_data E data st)) = subscribers st.
Proof.
  intros E data st Hother.
  pose proof (on_data_subscribers E data st) as H.
  destruct (JSON_parse E data) as [request | error |]; [|exact H..].
  destruct (Hother request eq_refl) as [Hs Hu].
  rewrite H.
  apply (preserves_executeCommand_other
           (fun s => subscribers s = subscribers st)); auto.
  - intros line s Hs'; exact Hs'.
  - intros e s Hs'; exact Hs'.
Qed.

(** An [eval] on a server with one subscriber. *)
Lemma only_registry_methods_witness :
  (forall request,
      JSON_parse sample_env EVAL_40_PLUS_2 = Return request ->
      is_case (member request "method") "subscribe" = false
      /\ is_case (member request "method") "unsubscribe" = false)
  /\ subscribers
       (snd (on_data sample_env EVAL_40_PLUS_2
               (state_with_subscribers [str "http://a"])))
     = [str "http://a"].
Proof.
  assert (H : forall request,
             JSON_parse sample_env EVAL_40_PLUS_2 = Return request ->
             is_case (member request "method") "subscribe" = false
             /\ is_case (member request "method") "unsubscribe" = false).
  { intros request Hp; injection Hp as <-; split; reflexivity. }
  split; [exact H|].
  rewrite (only_registry_methods_change_subscribers
             sample_env EVAL_40_PLUS_2
             (state_with_subscribers [str "http://a"]) H).
  reflexivity.
Defined.

(** ** Missing and empty parameters *)

Lemma read_present base k st :
  base <> VUndefined -> base <> VNull ->
  read base k st = (Return (member base k), st).
Proof. intros Hu Hn; destruct base; try contradiction; reflexivity. Qed.

Lemma read_nullish base k st :
  nullish base ->
  read base k st
  = (Throw (EngineTypeError (ReadPropertyOfNullish base (lit k))), st).
Proof. intros [-> | ->]; reflexivity. Qed.

Lemma executeCommand_object E request st s :
  member request "method" = VStr s ->
  executeCommand E request st
  = dispatch E (VStr s) (member request "params") st.
Proof.
  intros H; destruct (member_str_object _ _ _ H) as [fields ->].
  change (executeCommand E (VObj fields) st)
    with (dispatch E (member (VObj fields) "method")
            (member (VObj fields) "params") st).
  rewrite H; reflexivity.
Qed.

Lemma on_data_returned_state E data request st result st2 :
  JSON_parse E data = Return request ->
  executeCommand E request (logged_input E request st) = (Return result, st2) ->
  on_data E data st = on_socket SocketEnd (snd (respond E result st2)).
Proof.
  intros Hparse Hret.
  pose proof (on_data_run E data st) as H.
  rewrite Hparse, Hret in H; exact H.
Qed.

(** X3. [subscribe] and [unsubscribe] with parameters that hold no
    [url], or a falsy one (empty string, 0, [null], [false]), return
    [{ error: 'url parameter required' }]: the subscriber set and the
    history are left as they were, and the client is sent
    [{ ok: false, error: 'url parameter required' }]. *)
Theorem registry_request_without_url_is_refused :
  forall E data request st,
    JSON_parse E data = Return request ->
    member request "method" = str "subscribe"
    \/ member request "method" = str "unsubscribe" ->
    ~ nullish (member request "params") ->
    truthy (member (member request "params") "url") = false ->
    (forall st0,
        fst (executeCommand E request st0)
        = Return (obj [field "error" (str "url parameter required")])
        /\ subscribers (snd (executeCommand E request st0)) = subscribers st0
        /\ outputHistory (snd (executeCommand E request st0))
           = outputHistory st0)
    /\ socket (snd (on_data E data st))
       = socket st
         ++ [SocketWrite
               (JSON_stringify E
                  (obj [field "ok" (VBool false);
                        field "error" (str "url parameter required")]));
             SocketEnd]
    /\ subscribers (snd (on_data E data st)) = subscribers st.
Proof.
  intros E data request st Hparse Hmethod Hparams Hurl.
  assert (Hp1 : member request "params" <> VUndefined)
    by (intros H; apply Hparams; left; exact H).
  assert (Hp2 : member request "params" <> VNull)
    by (intros H; apply Hparams; right; exact H).
  assert (Hexec : exists label, forall st0,
             executeCommand E request st0
             = (Return (obj [field "error" (str "url parameter required")]),
                entered label st0)).
  { destruct Hmethod as [Hm | Hm];
      [exists "subscribe"%string | exists "unsubscribe"%string];
      intros st0;
      [ rewrite (executeCommand_subscribe E request st0 Hm)
      | rewrite (executeCommand_unsubscribe E request st0 Hm) ];
      unfold case_subscribe, case_unsubscribe;
      (erewrite bind_Return by (apply read_present; assumption));
      rewrite Hurl; reflexivity. }
  destruct Hexec as [label Hexec].
  split; [intros st0; rewrite Hexec; repeat split|].
  pose proof (on_data_returned_state E data request st _ _ Hparse
                (Hexec (logged_input E request st))) as Hrun.
  pose proof (on_data_subscribers E data st) as Hsubs.
  rewrite Hparse, Hexec in Hsubs.
  split; [|exact Hsubs].
  rewrite Hrun; simpl; apply app_two.
Qed.

(** [subscribe] with empty parameters on a server with one subscriber. *)
Lemma registry_request_without_url_witness :
  JSON_parse second_env SUBSCRIBE_NO_URL
  = Return (request_of "subscribe" (obj []))
  /\ (member (request_of "subscribe" (obj [])) "method" = str "subscribe"
      \/ member (request_of "subscribe" (obj [])) "method"
         = str "unsubscribe")
  /\ ~ nullish (member (request_of "subscribe" (obj [])) "params")
  /\ truthy (member (member (request_of "subscribe" (obj [])) "params") "url")
     = false
  /\ socket (snd (on_data second_env SUBSCRIBE_NO_URL
                    (state_with_subscribers [str "http://a"])))
     = [SocketWrite (dq "{'ok':false,'error':'url parameter required'}");
        SocketEnd].
Proof.
  assert (Hn : ~ nullish (member (request_of "subscribe" (obj [])) "params"))
    by (intros [H | H]; discriminate H).
  split; [reflexivity|].
  split; [left; reflexivity|].
  split; [exact Hn|].
  split; [reflexivity|].
  destruct (registry_request_without_url_is_refused
              second_env SUBSCRIBE_NO_URL (request_of "subscribe" (obj []))
              (state_with_subscribers [str "http://a"])
              eq_refl (or_introl eq_refl) Hn eq_refl) as [_ [H _]].
  rewrite H; reflexivity.
Defined.

Lemma dispatch_param_reader E label key cmdParams st :
  In (label, key) PARAM_READERS ->
  nullish cmdParams ->
  dispatch E (str label) cmdParams st
  = (Throw (EngineTypeError (ReadPropertyOfNullish cmdParams (lit key))),
     entered label st).
Proof.
  intros Hin Hnull; unfold PARAM_READERS in Hin; simpl in Hin.
  repeat (destruct Hin as [[= <- <-] | Hin];
          [destruct Hnull as [-> | ->]; reflexivity|]).
  contradiction.
Qed.

(** X4. A request for [eval], [registerConfig], [unregisterConfig],
    [subscribe], [unsubscribe] or [getOutput] that has no [params] (or
    [params: null]) makes the dispatcher throw on the first parameter it
    reads; nothing but the progress notice has happened by then, and the
    client is sent [{ ok: false, error: <the engine's message> }]. *)
Theorem request_without_params_fails :
  forall E data request st label key,
    JSON_parse E data = Return request ->
    In (label, key) PARAM_READERS ->
    member request "method" = str label ->
    nullish (member request "params") ->
    let failure :=
      ReadPropertyOfNullish (member request "params") (lit key) in
    let error := EngineTypeError failure in
    (forall st0,
        executeCommand E request st0 = (Throw error, entered label st0))
    /\ socket (snd (on_data E data st))
       = socket st
         ++ [SocketWrite
               (JSON_stringify E
                  (obj [field "ok" (VBool false);
                        field "error"
                          (VStr (type_error_message E failure))]));
             SocketEnd]
    /\ subscribers (snd (on_data E data st)) = subscribers st.
Proof.
  intros E data request st label key Hparse Hin Hmethod Hnull failure error.
  assert (Hexec : forall st0,
             executeCommand E request st0 = (Throw error, entered label st0)).
  { intros st0; rewrite (executeCommand_object E request st0 _ Hmethod).
    apply dispatch_param_reader; assumption. }
  split; [exact Hexec|].
  pose proof (on_data_thrown E data request st error Hparse) as Hrun.
  rewrite Hexec in Hrun; specialize (Hrun eq_refl).
  pose proof (on_data_subscribers E data st) as Hsubs.
  rewrite Hparse, Hexec in Hsubs.
  split; [|exact Hsubs].
  rewrite Hrun; simpl; apply app_two.
Qed.

(** [getOutput] without [params]: no default of 100 lines, a failure. *)
Lemma request_without_params_witness :
  JSON_parse second_env GET_OUTPUT_NO_PARAMS
  = Return (obj [field "method" (str "getOutput")])
  /\ In ("getOutput", "lines")%string PARAM_READERS
  /\ member (obj [field "method" (str "getOutput")]) "method"
     = str "getOutput"
  /\ nullish (member (obj [field "method" (str "getOutput")]) "params")
  /\ socket (snd (on_data second_env GET_OUTPUT_NO_PARAMS initial_state))
     = [SocketWrite
          (dq "{'ok':false,'error':'Cannot read properties of undefined'}");
        SocketEnd].
Proof.
  assert (Hin : In ("getOutput", "lines")%string PARAM_READERS)
    by (unfold PARAM_READERS; simpl; tauto).
  split; [reflexivity|].
  split; [exact Hin|].
  split; [reflexivity|].
  split; [left; reflexivity|].
  destruct (request_without_params_fails
              second_env GET_OUTPUT_NO_PARAMS
              (obj [field "method" (str "getOutput")]) initial_state
              "getOutput"%string "lines"%string
              eq_refl Hin eq_refl (or_introl eq_refl)) as [_ [H _]].
  rewrite H; reflexivity.
Defined.

(** ** Chunks that are not JSON *)

(** X5. A chunk that [JSON.parse] rejects never reaches the dispatcher:
    no progress notice is given and the subscribers are untouched; the
    history gains the one line of the error, and the client is sent
    [{ ok: false, error: <message of the parser> }] before the socket is
    ended. The parser throws a [SyntaxError], whose message is its
    [message] property. *)
Theorem malformed_json_skips_the_dispatcher :
  forall E data st error message,
    JSON_parse E data = Throw error ->
    exn_message E error = Return message ->
    let response :=
      JSON_stringify E
        (obj [field "ok" (VBool false); field "error" (VStr message)]) in
    let st' := snd (on_data E data st) in
    fst (on_data E data st) = Return tt
    /\ socket st' = socket st ++ [SocketWrite response; SocketEnd]
    /\ effects st' = effects st
    /\ subscribers st' = subscribers st
    /\ outputHistory st'
       = push_history (outputHistory st)
           (LEFT_ARROW :: lit " ERROR: " ++ response).
Proof.
  intros E data st error message Hparse Hmessage response st'.
  subst response st'.
  pose proof (on_data_run E data st) as H; rewrite Hparse in H.
  rewrite H; unfold on_data_catch, bind at 1, lift; rewrite Hmessage.
  simpl; repeat split; apply app_two.
Qed.

(** A chunk cut in the middle of a request. *)
Lemma malformed_json_witness :
  JSON_parse sample_env (dq "{'method':'eval',")
  = Throw (ErrorObject (lit "SyntaxError") (lit "Unexpected token"))
  /\ effects (snd (on_data sample_env (dq "{'method':'eval',") initial_state))
     = []
  /\ outputHistory
       (snd (on_data sample_env (dq "{'method':'eval',") initial_state))
     = [LEFT_ARROW
        :: lit " ERROR: " ++ dq "{'ok':false,'error':'Unexpected token'}"].
Proof.
  split; [reflexivity|].
  destruct (malformed_json_skips_the_dispatcher
              sample_env (dq "{'method':'eval',") initial_state
              (ErrorObject (lit "SyntaxError") (lit "Unexpected token"))
              (lit "Unexpected token") eq_refl eq_refl)
    as [_ [_ [He [_ Hh]]]].
  split; [rewrite He | rewrite Hh]; reflexivity.
Defined.

(** ** Results that carry no [error] *)

Lemma response_for_plain result :
  (forall fields, result = VObj fields -> lookup (lit "error") fields = None) ->
  response_for result = obj [field "ok" (VBool true); field "result" result].
Proof.
  intros H; unfold response_for.
  destruct result; cbn [truthy typeof_object has_property andb];
    try reflexivity.
  - destruct b; reflexivity.
  - destruct (negb (z =? 0)%Z); reflexivity.
  - destruct s; reflexivity.
  - rewrite (H fields eq_refl); reflexivity.
Qed.

(** X6. Every result of the dispatcher that is not an object with an
    [error] property ([undefined], [null], booleans, numbers, strings,
    arrays, objects without that key) is sent as
    [{ ok: true, result: <it> }]. *)
Theorem plain_result_is_reported_as_success :
  forall E data request st result,
    JSON_parse E data = Return request ->
    fst (executeCommand E request (logged_input E request st))
    = Return result ->
    (forall fields, result = VObj fields ->
                    lookup (lit "error") fields = None) ->
    socket (snd (on_data E data st))
    = socket st
      ++ [SocketWrite
            (JSON_stringify E
               (obj [field "ok" (VBool true); field "result" result]));
          SocketEnd].
Proof.
  intros E data request st result Hparse Hret Hplain.
  rewrite (on_data_returned E data request st result Hparse Hret).
  rewrite (response_for_plain result Hplain); reflexivity.
Qed.

(** The code [null] completes with [null], which is no failure. *)
Lemma plain_result_witness :
  JSON_parse second_env EVAL_NULL = Return (eval_request (lit "null"))
  /\ fst (executeCommand second_env (eval_request (lit "null"))
            (logged_input second_env (eval_request (lit "null"))
               initial_state))
     = Return VNull
  /\ (forall fields, VNull = VObj fields ->
                     lookup (lit "error") fields = None)
  /\ socket (snd (on_data second_env EVAL_NULL initial_state))
     = [SocketWrite (dq "{'ok':true,'result':null}"); SocketEnd].
Proof.
  assert (Hp : forall fields, VNull = VObj fields ->
                              lookup (lit "error") fields = None)
    by (intros fields H; discriminate H).
  split; [reflexivity | split; [reflexivity | split; [exact Hp|]]].
  rewrite (plain_result_is_reported_as_success
             second_env EVAL_NULL (eval_request (lit "null")) initial_state
             VNull eq_refl eq_refl Hp).
  reflexivity.
Defined.

(** ** The console of [eval] *)

Lemma forEach_appendLine {A} (l : list A) (f : A -> jsstring) st :
  forEach l (fun x => appendLine (f x)) st
  = (Return tt,
     {| subscribers := subscribers st;
        outputHistory := append_all (outputHistory st) (map f l);
        channel := channel st ++ map f l;
        effects := effects st;
        socket := socket st |}).
Proof.
  revert st; induction l as [|x l IH]; intros st; cbn [forEach map].
  - cbn [append_all fold_left]; rewrite app_nil_r; destruct st; reflexivity.
  - unfold bind; cbn [appendLine]; rewrite IH; cbn.
    rewrite <- app_assoc; reflexivity.
Qed.

(** X7. What the code run by [eval] prints through [console.log],
    [console.error] and [console.warn] is appended to the output history,
    one line per call and in the order of the calls, whether the code
    then returns or throws; the subscriber set is not touched. *)
Theorem eval_console_lines_reach_the_history :
  forall E request source st,
    member request "method" = str "eval" ->
    member (member request "params") "code" = VStr source ->
    let run := run_async_function E (eval_body source) in
    let st' := snd (executeCommand E request st) in
    fst (executeCommand E request st) = snd run
    /\ outputHistory st'
       = append_all (outputHistory st) (map (evalConsole E) (fst run))
    /\ channel st' = channel st ++ map (evalConsole E) (fst run)
    /\ subscribers st' = subscribers st.
Proof.
  intros E request source st Hmethod Hcode run st'; subst st'.
  rewrite executeCommand_eval by exact Hmethod.
  destruct (member_str_object _ _ _ Hcode) as [fields Hparams].
  rewrite Hparams in *.
  unfold case_eval, read; rewrite Hcode.
  cbv [bind ret call_trim]; fold (eval_body source); fold run.
  rewrite forEach_appendLine.
  repeat split.
Qed.

(** Code that logs 1 and then throws 2: the line is in the history. *)
Lemma eval_console_witness :
  member (eval_request (lit "console.log(1); throw 2;")) "method" = str "eval"
  /\ member (member (eval_request (lit "console.log(1); throw 2;")) "params")
       "code"
     = VStr (lit "console.log(1); throw 2;")
  /\ fst (executeCommand second_env
            (eval_request (lit "console.log(1); throw 2;")) initial_state)
     = Throw (ThrownValue (VNum 2))
  /\ outputHistory
       (snd (executeCommand second_env
               (eval_request (lit "console.log(1); throw 2;")) initial_state))
     = [lit "[eval] 1"].
Proof.
  split; [reflexivity | split; [reflexivity|]].
  destruct (eval_console_lines_reach_the_history
              second_env (eval_request (lit "console.log(1); throw 2;"))
              (lit "console.log(1); throw 2;") initial_state
              eq_refl eq_refl) as [Hr [Hh _]].
  split; [rewrite Hr | rewrite Hh]; reflexivity.
Defined.

(** ** [getOutput] with any [lines] *)

Lemma slice_is_suffix {A} (start : integer_or_infinity) (l : list A) :
  exists prefix, l = prefix ++ slice start l.
Proof.
  unfold slice.
  match goal with |- context [skipn ?k l] => exists (firstn k l) end.
  symmetry; apply firstn_skipn.
Qed.

Lemma slice_positive {A} (n : Z) (l : list A) :
  (0 <= n)%Z -> slice (Finite n) l = skipn (Z.to_nat n) l.
Proof.
  intros H; unfold slice.
  destruct (Z.ltb_spec n 0) as [Hlt | _]; [lia|].
  destruct (Z.le_ge_cases n (Z.of_nat (length l))) as [Hle | Hge].
  - rewrite Z.min_l by exact Hle; reflexivity.
  - rewrite Z.min_r by exact Hge.
    rewrite Nat2Z.id, !skipn_all2 by lia; reflexivity.
Qed.

Lemma to_integer_primitive E (v : value) :
  (forall fields, v <> VObj fields) -> (forall items, v <> VArr items) ->
  exists start, to_integer E v = Return start.
Proof.
  intros Hobj Harr; destruct v; cbn [to_integer]; eauto.
  - exfalso; apply (Harr items); reflexivity.
  - exfalso; apply (Hobj fields); reflexivity.
Qed.

(** X8. Once [params] is there, [getOutput] converts [lines], or 100
    when [lines] is falsy, to a number. When the conversion returns,
    which it does for every [lines] that is no object and no array, the
    command succeeds: its [output] is a suffix of the history in order,
    [total] is the length of the history, and the server is left as it
    was. When the conversion throws, the command throws the same and
    the server is left as it was. With a negative [lines] the first
    [-lines] lines are dropped and the rest is returned. *)
Theorem getOutput_returns_a_suffix :
  forall E request st,
    member request "method" = str "getOutput" ->
    ~ nullish (member request "params") ->
    let history := outputHistory st in
    let lines :=
      or_else (member (member request "params") "lines") (VNum 100) in
    (forall start,
        to_integer E lines = Return start ->
        exists prefix output,
          history = prefix ++ output
          /\ output = slice (negate start) history
          /\ executeCommand E request st
             = (Return (obj [field "output" (VArr (map VStr output));
                             field "total"
                               (VNum (Z.of_nat (length history)))]),
                entered "getOutput" st))
    /\ (forall e,
           to_integer E lines = Throw e ->
           executeCommand E request st = (Throw e, entered "getOutput" st))
    /\ ((forall fields, lines <> VObj fields) ->
        (forall items, lines <> VArr items) ->
        exists start, to_integer E lines = Return start)
    /\ (forall n, (n < 0)%Z ->
          member (member request "params") "lines" = VNum n ->
          fst (executeCommand E request st)
          = Return (obj [field "output"
                           (VArr (map VStr (skipn (Z.to_nat (- n)) history)));
                         field "total"
                           (VNum (Z.of_nat (length history)))])).
Proof.
  intros E request st Hmethod Hparams history lines.
  assert (Hp1 : member request "params" <> VUndefined)
    by (intros H; apply Hparams; left; exact H).
  assert (Hp2 : member request "params" <> VNull)
    by (intros H; apply Hparams; right; exact H).
  rewrite executeCommand_getOutput by exact Hmethod.
  unfold case_getOutput.
  erewrite bind_Return by (apply read_present; assumption).
  fold lines; cbv [bind read_history ret lift fst snd].
  change (outputHistory (entered "getOutput" st)) with history.
  split; [|split; [|split]].
  - intros start Hstart; rewrite Hstart.
    destruct (slice_is_suffix (negate start) history) as [prefix Hp].
    exists prefix, (slice (negate start) history).
    split; [exact Hp | split; reflexivity].
  - intros e He; rewrite He; reflexivity.
  - apply to_integer_primitive.
  - intros n Hn Hlines; subst lines; rewrite Hlines.
    unfold or_else, truthy.
    destruct (Z.eqb_spec n 0) as [-> | _]; [lia|].
    cbv [negb to_integer negate].
    rewrite slice_positive by lia; reflexivity.
Qed.

(** Three lines, [lines = -1]: the first is dropped. *)
Lemma getOutput_suffix_witness :
  member (getOutput_request (VNum (-1))) "method" = str "getOutput"
  /\ ~ nullish (member (getOutput_request (VNum (-1))) "params")
  /\ fst (executeCommand sample_env (getOutput_request (VNum (-1)))
            (state_with_history [lit "a"; lit "b"; lit "c"]))
     = Return (obj [field "output" (VArr [str "b"; str "c"]);
                    field "total" (VNum 3)]).
Proof.
  assert (Hn : ~ nullish (member (getOutput_request (VNum (-1))) "params"))
    by (intros [H | H]; discriminate H).
  split; [reflexivity | split; [exact Hn|]].
  destruct (getOutput_returns_a_suffix
              sample_env (getOutput_request (VNum (-1)))
              (state_with_history [lit "a"; lit "b"; lit "c"])
              eq_refl Hn) as [_ [_ [_ H]]].
  rewrite (H (-1)%Z eq_refl eq_refl); reflexivity.
Defined.

(** [lines] an object that has no number: the unary minus throws, and
    the client is told of the failure. *)
Lemma getOutput_unprintable_lines :
  fst (executeCommand hard_env (getOutput_request UNPRINTABLE)
         (state_with_history [lit "a"]))
  = Throw (EngineTypeError (NotConvertible UNPRINTABLE))
  /\ socket (snd (on_data hard_env GET_OUTPUT_UNPRINTABLE initial_state))
     = [SocketWrite
          (dq ("{'ok':false,"
               ++ "'error':'Cannot convert object to primitive value'}"));
        SocketEnd].
Proof. split; reflexivity. Qed.

(** ** The [webview] case *)

Lemma executeCommand_webview E request st :
  member request "method" = str "webview" ->
  executeCommand E request st
  = case_webview E (member request "params") (entered "webview" st).
Proof. intros H; enter H. Qed.

(** X9. The [webview] case. Without a webview manager it answers
    [WebviewManager not initialized] whatever the parameters are, missing
    ones included. With a manager and parameters whose [viewName] is
    missing or falsy it answers [viewName parameter required] and
    [openView] is not called. With a [viewName] and a [title],
    [openView] is called once with them. With a [viewName] and no
    [title], the view name is printed into the title: when that
    succeeds [openView] is called once, with the title made of the tree
    emoji, a space and the view name, and its exception, if any, is the
    outcome; when the view name cannot be printed the case throws and
    [openView] is not called. *)
Theorem webview_case_validates_then_opens :
  forall E request st,
    member request "method" = str "webview" ->
    let cmdParams := member request "params" in
    (webviewManager E = None ->
     executeCommand E request st
     = (Return (obj [field "error" (str "WebviewManager not initialized")]),
        entered "webview" st))
    /\ (forall openView,
          webviewManager E = Some openView ->
          ~ nullish cmdParams ->
          truthy (member cmdParams "viewName") = false ->
          executeCommand E request st
          = (Return (obj [field "error" (str "viewName parameter required")]),
             entered "webview" st))
    /\ (forall openView name,
          webviewManager E = Some openView ->
          ~ nullish cmdParams ->
          truthy (member cmdParams "viewName") = true ->
          truthy (member cmdParams "title") = false ->
          to_string E (member cmdParams "viewName") = Return name ->
          let viewName := member cmdParams "viewName" in
          let title := VStr (TREE ++ lit " " ++ name) in
          let customPath := member cmdParams "customPath" in
          fst (executeCommand E request st)
          = match openView viewName title customPath with
            | Some error => Throw error
            | None => Return (obj [field "success" (VBool true);
                                   field "webview" viewName])
            end
          /\ effects (snd (executeCommand E request st))
             = effects (entered "webview" st)
               ++ [OpenView viewName title customPath])
    /\ (forall openView e,
          webviewManager E = Some openView ->
          ~ nullish cmdParams ->
          truthy (member cmdParams "viewName") = true ->
          truthy (member cmdParams "title") = false ->
          to_string E (member cmdParams "viewName") = Throw e ->
          executeCommand E request st = (Throw e, entered "webview" st))
    /\ (forall openView,
          webviewManager E = Some openView ->
          ~ nullish cmdParams ->
          truthy (member cmdParams "viewName") = true ->
          truthy (member cmdParams "title") = true ->
          let viewName := member cmdParams "viewName" in
          let title := member cmdParams "title" in
          let customPath := member cmdParams "customPath" in
          fst (executeCommand E request st)
          = match openView viewName title customPath with
            | Some error => Throw error
            | None => Return (obj [field "success" (VBool true);
                                   field "webview" viewName])
            end
          /\ effects (snd (executeCommand E request st))
             = effects (entered "webview" st)
               ++ [OpenView viewName title customPath]).
Proof.
  intros E request st Hmethod cmdParams.
  rewrite executeCommand_webview by exact Hmethod.
  fold cmdParams; unfold case_webview.
  assert (Hread : ~ nullish cmdParams -> forall k s,
             read cmdParams k s = (Return (member cmdParams k), s)).
  { intros Hparams k s; apply read_present.
    - intros H; apply Hparams; left; exact H.
    - intros H; apply Hparams; right; exact H. }
  split; [|split; [|split; [|split]]].
  - intros ->; reflexivity.
  - intros openView -> Hparams Hname.
    rewrite (bind_Return _ _ _ _ _ (Hread Hparams _ _)).
    rewrite Hname; reflexivity.
  - intros openView name -> Hparams Hname Htitle Hprint.
    set (viewName := member cmdParams "viewName") in *.
    set (customPath := member cmdParams "customPath").
    set (title := VStr (TREE ++ lit " " ++ name)).
    rewrite (bind_Return _ _ _ _ _ (Hread Hparams _ _)); fold viewName.
    rewrite Hname; cbn [negb].
    rewrite (bind_Return _ _ _ _ _ (Hread Hparams _ _)).
    rewrite Htitle, Hprint.
    cbv beta iota delta [bind lift ret]; fold title.
    rewrite (Hread Hparams); fold customPath; cbn [emit].
    destruct (openView viewName title customPath); split; reflexivity.
  - intros openView e -> Hparams Hname Htitle Hprint.
    rewrite (bind_Return _ _ _ _ _ (Hread Hparams _ _)).
    rewrite Hname; cbn [negb].
    rewrite (bind_Return _ _ _ _ _ (Hread Hparams _ _)).
    rewrite Htitle, Hprint; reflexivity.
  - intros openView -> Hparams Hname Htitle.
    set (viewName := member cmdParams "viewName") in *.
    set (customPath := member cmdParams "customPath").
    set (title := member cmdParams "title") in *.
    rewrite (bind_Return _ _ _ _ _ (Hread Hparams _ _)); fold viewName.
    rewrite Hname; cbn [negb].
    rewrite (bind_Return _ _ _ _ _ (Hread Hparams _ _)); fold title.
    rewrite Htitle.
    cbv beta iota delta [bind lift ret].
    rewrite (Hread Hparams); fold customPath; cbn [emit].
    destruct (openView viewName title customPath); split; reflexivity.
Qed.

(** The view [chat] asked of a host that has a manager. *)
Lemma webview_case_witness :
  member (webview_request (obj [field "viewName" (str "chat")])) "method"
  = str "webview"
  /\ effects
       (snd (executeCommand webview_env
               (webview_request (obj [field "viewName" (str "chat")]))
               initial_state))
     = [Progress (Executing (str "webview"));
        OpenView (str "chat") (VStr (TREE ++ lit " chat")) VUndefined].
Proof.
  split; [reflexivity|].
  destruct (webview_case_validates_then_opens
              webview_env
              (webview_request (obj [field "viewName" (str "chat")]))
              initial_state eq_refl) as [_ [_ H]].
  destruct H as [H _].
  destruct (H (fun _ _ _ => None) (lit "chat") eq_refl
              ltac:(intros [H0 | H0]; discriminate H0) eq_refl eq_refl
              eq_refl)
    as [_ He].
  rewrite He; reflexivity.
Defined.

(** A view name that cannot be printed and no title: the manager is
    there, and [openView] is not called. *)
Lemma webview_unprintable_name :
  executeCommand (with_webview hard_env (fun _ _ _ => None))
    (webview_request (obj [field "viewName" UNPRINTABLE])) initial_state
  = (Throw (EngineTypeError (NotConvertible UNPRINTABLE)),
     entered "webview" initial_state).
Proof. reflexivity. Qed.

(** ** More on the subscriber set *)

Lemma Set_delete_add_absent (u : jsstring) (s : list value) :
  ~ In (VStr u) s -> Set_delete (VStr u) (Set_add (VStr u) s) = s.
Proof.
  intros H; unfold Set_add.
  destruct (Set_has (VStr u) s) eqn:Hhas.
  - apply Set_has_string in Hhas; contradiction.
  - unfold Set_delete; rewrite filter_app.
    fold (Set_delete (VStr u) s); rewrite Set_delete_absent by exact H.
    cbn [filter same_value_zero]; rewrite jsstring_eqb_refl.
    apply app_nil_r.
Qed.

Lemma Set_add_delete_present (u : jsstring) (s : list value) :
  Set_add (VStr u) (Set_delete (VStr u) s) = Set_delete (VStr u) s ++ [VStr u].
Proof.
  unfold Set_add.
  rewrite (Set_has_delete u u s), jsstring_eqb_refl; reflexivity.
Qed.

(** X10. Round trips on the subscriber set. Subscribing a URL that is not
    in the set and unsubscribing it again gives back the set as it was,
    order included. Unsubscribing a URL and subscribing it again keeps
    the members but moves the URL to the end of the list that
    [listSubscribers] and [broadcast] go through. *)
Theorem subscribe_unsubscribe_round_trip :
  forall E st (url : jsstring),
    url <> [] ->
    (~ In (VStr url) (subscribers st) ->
     subscribers (run_registry E [Subscribe url; Unsubscribe url] st)
     = subscribers st)
    /\ subscribers (run_registry E [Unsubscribe url; Subscribe url] st)
       = Set_delete (VStr url) (subscribers st) ++ [VStr url].
Proof.
  intros E st url Hurl; cbn [run_registry].
  rewrite !subscribe_step, !unsubscribe_step by exact Hurl.
  cbn [snd appendLine update_subscribers entered emit subscribers].
  split.
  - intros Hout; apply Set_delete_add_absent; exact Hout.
  - apply Set_add_delete_present.
Qed.

(** Two subscribers; the first leaves and comes back. *)
Lemma subscribe_round_trip_witness :
  lit "http://a" <> []
  /\ subscribers
       (run_registry sample_env
          [Unsubscribe (lit "http://a"); Subscribe (lit "http://a")]
          (state_with_subscribers [str "http://a"; str "http://b"]))
     = [str "http://b"; str "http://a"].
Proof.
  assert (Hurl : lit "http://a" <> []) by discriminate.
  split; [exact Hurl|].
  destruct (subscribe_unsubscribe_round_trip
              sample_env
              (state_with_subscribers [str "http://a"; str "http://b"])
              (lit "http://a") Hurl) as [_ H].
  rewrite H; reflexivity.
Defined.

Lemma Set_add_NoDup (u : jsstring) (s : list value) :
  NoDup s -> NoDup (Set_add (VStr u) s).
Proof.
  intros H; unfold Set_add.
  destruct (Set_has (VStr u) s) eqn:Hhas; [exact H|].
  apply NoDup_app; [exact H | repeat constructor; intros [] |].
  intros v Hin [<- | []].
  apply Set_has_string in Hin; congruence.
Qed.

Lemma Set_add_all_strings (u : jsstring) (s : list value) :
  all_strings s -> all_strings (Set_add (VStr u) s).
Proof.
  intros H; unfold Set_add, all_strings.
  destruct (Set_has (VStr u) s); [exact H|].
  apply Forall_app; split; [exact H|].
  constructor; [exists u; reflexivity | constructor].
Qed.

Lemma Set_delete_all_strings (v : value) (s : list value) :
  all_strings s -> all_strings (Set_delete v s).
Proof.
  unfold all_strings, Set_delete; rewrite !Forall_forall.
  intros H x Hin; apply filter_In in Hin; apply H, Hin.
Qed.

Lemma run_registry_NoDup E (ops : list registry_op) :
  Forall (fun op => op_url op <> []) ops ->
  forall st,
    NoDup (subscribers st) -> all_strings (subscribers st) ->
    NoDup (subscribers (run_registry E ops st))
    /\ all_strings (subscribers (run_registry E ops st)).
Proof.
  induction 1 as [|op ops Hop _ IH]; intros st Hnd Hall; simpl.
  - split; assumption.
  - destruct op as [url | url]; simpl in Hop; apply IH.
    + rewrite subscribe_step by exact Hop; apply Set_add_NoDup, Hnd.
    + rewrite subscribe_step by exact Hop; apply Set_add_all_strings, Hall.
    + rewrite unsubscribe_step by exact Hop; apply NoDup_filter, Hnd.
    + rewrite unsubscribe_step by exact Hop.
      apply Set_delete_all_strings, Hall.
Qed.

Lemma all_strings_urls (s : list value) :
  all_strings s -> exists urls, s = map VStr urls.
Proof.
  induction 1 as [|v s [u ->] _ [urls ->]].
  - exists []; reflexivity.
  - exists (u :: urls); reflexivity.
Qed.

Lemma NoDup_map_VStr (urls : list jsstring) :
  NoDup (map VStr urls) -> NoDup urls.
Proof.
  induction urls as [|u urls IH]; intros H; [constructor|].
  inversion H as [|? ? Hnotin Hrest]; subst.
  constructor; [|apply IH; exact Hrest].
  intros Hin; apply Hnotin, in_map, Hin.
Qed.

(** X11. On a server that has just started, after any sequence of
    [subscribe] and [unsubscribe] requests with non-empty string URLs, a
    broadcast sends exactly one POST to each URL whose last request was a
    [subscribe], and none to any other URL: repeated subscriptions do not
    multiply the deliveries. *)
Theorem broadcast_posts_once_per_subscribed_url :
  forall E now ops event,
    Forall (fun op => op_url op <> []) ops ->
    let st := run_registry E ops (snd (startBridgeServer now)) in
    exists urls,
      effects (snd (broadcast E event st))
      = effects st
        ++ map (fun u => Post (VStr u) (JSON_stringify E event)) urls
      /\ NoDup urls
      /\ (forall u, In u urls <-> subscribed_after ops u false = true).
Proof.
  intros E now ops event Hops st.
  destruct (run_registry_NoDup E ops Hops (snd (startBridgeServer now)))
    as [Hnd Hall]; [constructor | constructor |].
  fold st in Hnd, Hall.
  destruct (all_strings_urls _ Hall) as [urls Hurls].
  exists urls; split; [|split].
  - unfold broadcast, bind; cbn [read_subscribers].
    rewrite forEach_emit; cbn [snd effects].
    rewrite Hurls, map_map; reflexivity.
  - apply NoDup_map_VStr; rewrite <- Hurls; exact Hnd.
  - intros u.
    rewrite <- (run_registry_membership E ops Hops
                  (snd (startBridgeServer now)) u
                : _ = subscribed_after ops u false).
    fold st; rewrite Set_has_string, Hurls, in_map_iff; split.
    + intros Hin; exists u; auto.
    + intros [u' [[= ->] Hin]]; exact Hin.
Qed.

(** [a] subscribed twice, [b] subscribed and unsubscribed: one POST, to
    [a]. *)
Lemma broadcast_once_witness :
  Forall (fun op => op_url op <> [])
    [Subscribe (lit "http://a"); Subscribe (lit "http://b");
     Subscribe (lit "http://a"); Unsubscribe (lit "http://b")]
  /\ filter (fun e => match e with Post _ _ => true | _ => false end)
       (effects
          (snd (broadcast sample_env (str "ping")
                  (run_registry sample_env
                     [Subscribe (lit "http://a"); Subscribe (lit "http://b");
                      Subscribe (lit "http://a"); Unsubscribe (lit "http://b")]
                     (snd (startBridgeServer 0))))))
     = [Post (str "http://a") (QUOTE :: lit "ping" ++ [QUOTE])].
Proof.
  assert (Hops : Forall (fun op => op_url op <> [])
                   [Subscribe (lit "http://a"); Subscribe (lit "http://b");
                    Subscribe (lit "http://a"); Unsubscribe (lit "http://b")])
    by (repeat constructor; discriminate).
  split; [exact Hops|].
  destruct (broadcast_posts_once_per_subscribed_url
              sample_env 0
              [Subscribe (lit "http://a"); Subscribe (lit "http://b");
               Subscribe (lit "http://a"); Unsubscribe (lit "http://b")]
              (str "ping") Hops) as [urls [He _]].
  reflexivity.
Defined.

(** * The commands of the extension *)

Lemma run_commands_app (a b : list command) (x : extension) :
  run_commands (a ++ b) x = run_commands b (run_commands a x).
Proof. apply fold_left_app. Qed.

Lemma bridge_start_running now x config :
  bridgeConfig x = Some config ->
  is_running (bridge_start now x) = true
  /\ bridgeConfig (bridge_start now x) = Some config
  /\ listen_calls (bridge_start now x)
     + (if is_running x then 1 else 0)
     = S (listen_calls x)
  /\ close_calls (bridge_start now x) = close_calls x.
Proof.
  intros Hc; unfold bridge_start, is_running.
  destruct (bridgeInstance x) as [[instance st]|] eqn:Hi.
  - simpl; rewrite Hi; repeat split; try exact Hc; lia.
  - rewrite Hc; simpl; repeat split; try exact Hc; lia.
Qed.

Lemma bridge_stop_stopped x :
  is_running (bridge_stop x) = false
  /\ bridgeConfig (bridge_stop x) = bridgeConfig x
  /\ listen_calls (bridge_stop x) = listen_calls x
  /\ close_calls (bridge_stop x)
     = close_calls x + (if is_running x then 1 else 0).
Proof.
  unfold bridge_stop, is_running.
  destruct (bridgeInstance x) as [[instance st]|] eqn:Hi; simpl;
    rewrite ?Hi; repeat split; lia.
Qed.

Lemma bridge_activity_same ops x :
  is_running (bridge_activity ops x) = is_running x
  /\ bridgeConfig (bridge_activity ops x) = bridgeConfig x
  /\ listen_calls (bridge_activity ops x) = listen_calls x
  /\ close_calls (bridge_activity ops x) = close_calls x.
Proof.
  unfold bridge_activity, is_running.
  destruct (bridgeInstance x) as [[instance st]|] eqn:Hi;
    [destruct (bridgeConfig x) eqn:Hc|]; simpl; rewrite ?Hi, ?Hc; auto.
Qed.

(** X12. With the config in place, after any sequence of start and stop
    commands (and of server activity in between) the bridge is running
    exactly when the last of them was a start; a start while running and
    a stop while stopped change nothing of that. The servers listened for
    and not yet closed are one while it runs and none while it does not:
    the commands never leave two servers open. *)
Theorem bridge_runs_iff_last_command_started :
  forall config cs x,
    bridgeConfig x = Some config ->
    listen_calls x = close_calls x + (if is_running x then 1 else 0) ->
    let x' := run_commands cs x in
    is_running x' = running_after cs (is_running x)
    /\ listen_calls x' = close_calls x' + (if is_running x' then 1 else 0).
Proof.
  intros config cs; induction cs as [|c cs IH]; intros x Hc Hn.
  - split; [reflexivity | exact Hn].
  - cbn [run_commands fold_left running_after] in *.
    destruct c as [now | | ops]; cbn [run_command].
    + destruct (bridge_start_running now x config Hc) as [Hr [Hc' [Hl Hcl]]].
      destruct (IH (bridge_start now x) Hc') as [H1 H2].
      * rewrite Hr, Hcl; destruct (is_running x); lia.
      * rewrite Hr in H1; split; assumption.
    + destruct (bridge_stop_stopped x) as [Hr [Hc' [Hl Hcl]]].
      destruct (IH (bridge_stop x)) as [H1 H2].
      * rewrite Hc'; exact Hc.
      * rewrite Hr, Hcl, Hl; destruct (is_running x); lia.
      * rewrite Hr in H1; split; assumption.
    + destruct (bridge_activity_same ops x) as [Hr [Hc' [Hl Hcl]]].
      destruct (IH (bridge_activity ops x)) as [H1 H2].
      * rewrite Hc'; exact Hc.
      * rewrite Hr, Hcl, Hl; exact Hn.
      * rewrite Hr in H1; split; assumption.
Qed.

(** Start, start again, stop, stop again, start. *)
Lemma bridge_runs_witness :
  bridgeConfig (activated sample_env) = Some sample_env
  /\ listen_calls (activated sample_env)
     = close_calls (activated sample_env)
       + (if is_running (activated sample_env) then 1 else 0)
  /\ is_running
       (run_commands
          [StartCommand 1; StartCommand 2; StopCommand; StopCommand;
           StartCommand 3] (activated sample_env))
     = true.
Proof.
  split; [reflexivity | split; [reflexivity|]].
  destruct (bridge_runs_iff_last_command_started
              sample_env
              [StartCommand 1; StartCommand 2; StopCommand; StopCommand;
               StartCommand 3] (activated sample_env) eq_refl eq_refl)
    as [H _].
  rewrite H; reflexivity.
Defined.

(** X13. A start command given while the bridge runs leaves the instance
    and everything its server holds (start time, subscribers, history)
    as they are and only reports [Bridge already running]. A stop
    followed by a start gives a new server: its subscriber set is empty
    and its history holds the two lines of the banner, whatever the
    previous server had. *)
Theorem restart_forgets_subscribers :
  forall config x now,
    bridgeConfig x = Some config ->
    (is_running x = true ->
     bridgeInstance (bridge_start now x) = bridgeInstance x
     /\ notifications (bridge_start now x)
        = notifications x
          ++ [InformationMessage (lit "Bridge already running")])
    /\ (exists st,
           bridgeInstance (bridge_start now (bridge_stop x))
           = Some ({| startTime := now |}, st)
           /\ subscribers st = []
           /\ outputHistory st = BANNER).
Proof.
  intros config x now Hc; split.
  - unfold is_running, bridge_start.
    destruct (bridgeInstance x) as [[instance st]|] eqn:Hi;
      [|discriminate].
    intros _; simpl; rewrite Hi; split; reflexivity.
  - exists (snd (startBridgeServer now)).
    unfold bridge_start, bridge_stop.
    destruct (bridgeInstance x) as [[instance st]|] eqn:Hi; simpl;
      rewrite ?Hi, Hc; simpl; repeat split.
Qed.

(** A server that gained a subscriber, then a stop and a start. *)
Lemma restart_forgets_witness :
  bridgeConfig
    (run_commands
       [StartCommand 1; Activity [Connection [DataEvent SUBSCRIBE_A]]]
       (activated third_env))
  = Some third_env
  /\ option_map (fun p => subscribers (snd p))
       (bridgeInstance
          (run_commands
             [StartCommand 1; Activity [Connection [DataEvent SUBSCRIBE_A]]]
             (activated third_env)))
     = Some [str "http://a"]
  /\ option_map (fun p => subscribers (snd p))
       (bridgeInstance
          (run_commands
             [StartCommand 1; Activity [Connection [DataEvent SUBSCRIBE_A]];
              StopCommand; StartCommand 9]
             (activated third_env)))
     = Some [].
Proof.
  split; [reflexivity | split; [reflexivity|]].
  destruct (restart_forgets_subscribers
              third_env
              (run_commands
                 [StartCommand 1;
                  Activity [Connection [DataEvent SUBSCRIBE_A]]]
                 (activated third_env)) 9%Z eq_refl)
    as [_ [st [Hi [Hs _]]]].
  change (run_commands
            [StartCommand 1; Activity [Connection [DataEvent SUBSCRIBE_A]];
             StopCommand; StartCommand 9] (activated third_env))
    with (bridge_start 9
            (bridge_stop
               (run_commands
                  [StartCommand 1;
                   Activity [Connection [DataEvent SUBSCRIBE_A]]]
                  (activated third_env)))).
  rewrite Hi; simpl; rewrite Hs; reflexivity.
Defined.

Lemma decimal_digits E (z : Z) :
  (Z.abs z < 10 ^ 21)%Z -> decimal E z = digits z.
Proof.
  intros H; unfold decimal.
  destruct (Z.ltb_spec (Z.abs z) (10 ^ 21)) as [_ | Hge];
    [reflexivity | lia].
Qed.

(** X14. The uptime of the status bar. When the clock has not gone back
    since the start, the minutes shown are between 0 and 59, the hours
    are not negative, and hours and minutes together are the uptime in
    seconds rounded down to the minute; the hours are shown only when
    there is at least one. The minutes are always written with their
    digits, and so are the hours below 1e21. *)
Theorem status_bar_uptime_rounds_down_to_the_minute :
  forall E now start,
    (start <= now)%Z ->
    let s := uptimeSeconds now start in
    let h := hours now start in
    let m := minutes now start in
    (0 <= h)%Z /\ (0 <= m < 60)%Z
    /\ (60 * (60 * h + m) <= s < 60 * (60 * h + m) + 60)%Z
    /\ (1000 * s <= now - start < 1000 * s + 1000)%Z
    /\ uptimeFormatted E now start
       = (if (h =? 0)%Z then digits m ++ lit "m"
          else decimal E h ++ lit "h " ++ digits m ++ lit "m")
    /\ ((h < 10 ^ 21)%Z -> decimal E h = digits h).
Proof.
  intros E now start Hle s h m; subst s h m.
  unfold uptimeFormatted, hours, minutes, uptimeSeconds.
  set (d := (now - start)%Z).
  assert (Hd : (0 <= d)%Z) by (unfold d; lia).
  set (s := (d / 1000)%Z).
  assert (Hs : (1000 * s <= d < 1000 * s + 1000)%Z).
  { unfold s; pose proof (Z.div_mod d 1000 ltac:(lia)).
    pose proof (Z.mod_pos_bound d 1000 ltac:(lia)); lia. }
  assert (Hs0 : (0 <= s)%Z) by (unfold s; apply Z.div_pos; lia).
  rewrite (Z.rem_mod_nonneg s 3600) by lia.
  set (h := (s / 3600)%Z).
  set (r := (s mod 3600)%Z).
  assert (Hh : (s = 3600 * h + r)%Z) by (apply Z.div_mod; lia).
  assert (Hr : (0 <= r < 3600)%Z) by (apply Z.mod_pos_bound; lia).
  assert (Hh0 : (0 <= h)%Z) by (unfold h; apply Z.div_pos; lia).
  set (m := (r / 60)%Z).
  assert (Hm : (60 * m <= r < 60 * m + 60)%Z).
  { unfold m; pose proof (Z.div_mod r 60 ltac:(lia)).
    pose proof (Z.mod_pos_bound r 60 ltac:(lia)); lia. }
  assert (Hdm : decimal E m = digits m)
    by (apply decimal_digits; lia).
  rewrite Hdm.
  repeat split; try lia.
  - destruct (Z.ltb_spec 0 h), (Z.eqb_spec h 0); try lia; reflexivity.
  - intros Hlt; apply decimal_digits; lia.
Qed.

(** One hour, one minute and a little more. *)
Lemma status_bar_uptime_witness :
  (1000 <= 3662500)%Z
  /\ uptimeFormatted sample_env 3662500 1000 = lit "1h 1m".
Proof.
  split; [lia|].
  destruct (status_bar_uptime_rounds_down_to_the_minute
              sample_env 3662500 1000 ltac:(lia)) as [_ [_ [_ [_ [H _]]]]].
  rewrite H; reflexivity.
Defined.

(** * The HTML of a webview *)

Lemma up_to_quote_spec (s v : jsstring) :
  up_to_quote s = Some v -> exists post, s = v ++ QUOTE :: post.
Proof.
  revert v; induction s as [|c rest IH]; intros v; cbn [up_to_quote].
  - discriminate.
  - destruct (N.eqb_spec c QUOTE) as [-> | _].
    + intros [= <-]; exists rest; reflexivity.
    + destruct (up_to_quote rest) as [v'|]; [|discriminate].
      intros [= <-]; destruct (IH v' eq_refl) as [post ->].
      exists post; reflexivity.
Qed.

Lemma match_attribute_named_spec (attr s a rel : jsstring) :
  match_attribute_named attr s = Some (a, rel) ->
  a = attr /\ exists post, s = attribute_text attr rel ++ post.
Proof.
  unfold match_attribute_named.
  destruct (starts_with (attr ++ lit "=" ++ [QUOTE]) s) eqn:Hst;
    [|discriminate].
  apply starts_with_spec in Hst; destruct Hst as [post0 ->].
  replace (length attr + 2)
    with (length (attr ++ lit "=" ++ [QUOTE]) + 0)
    by (rewrite !length_app; simpl; lia).
  rewrite skipn_app, skipn_all2, Nat.add_0_r, Nat.sub_diag by lia.
  cbn [app skipn].
  destruct (up_to_quote post0) as [[|c v]|] eqn:Hq; try discriminate.
  intros [= <- <-]; split; [reflexivity|].
  destruct (up_to_quote_spec _ _ Hq) as [post ->].
  exists post; unfold attribute_text.
  rewrite <- !app_assoc; reflexivity.
Qed.

Lemma match_attribute_spec (s attr rel : jsstring) :
  match_attribute s = Some (attr, rel) ->
  exists post, s = attribute_text attr rel ++ post.
Proof.
  unfold match_attribute.
  destruct (match_attribute_named (lit "href") s) as [[a r]|] eqn:Hh.
  - intros [= -> ->].
    destruct (match_attribute_named_spec _ _ _ _ Hh) as [-> Hs]; exact Hs.
  - intros Hsrc.
    destruct (match_attribute_named_spec _ _ _ _ Hsrc) as [-> Hs]; exact Hs.
Qed.

Lemma attribute_text_length (attr rel : jsstring) :
  length (attribute_text attr rel) = S (length attr + 2 + length rel).
Proof. unfold attribute_text; rewrite !length_app; simpl; lia. Qed.

Lemma match_attribute_quote (s : jsstring) groups :
  match_attribute s = Some groups -> In QUOTE s.
Proof.
  destruct groups as [attr rel]; intros H.
  destruct (match_attribute_spec _ _ _ H) as [post ->].
  unfold attribute_text; rewrite !in_app_iff.
  left; right; right; left; left; reflexivity.
Qed.

(** A replacement whose callback gives back each match leaves the text
    as it is. *)
Lemma convert_from_unchanged W viewPath :
  (forall attr rel,
      convert_attribute W viewPath attr rel = attribute_text attr rel) ->
  forall t skip, convert_from W viewPath skip t = skipn skip t.
Proof.
  intros Hid t; induction t as [|c rest IH]; intros skip.
  - destruct skip; reflexivity.
  - cbn [convert_from]; destruct skip as [|k]; [|apply IH].
    destruct (match_attribute (c :: rest)) as [[attr rel]|] eqn:Hm.
    + rewrite Hid, IH.
      destruct (match_attribute_spec _ _ _ Hm) as [post Hpost].
      pose proof (attribute_text_length attr rel) as Hlen.
      destruct (attribute_text attr rel) as [|c' text];
        [discriminate Hlen|].
      injection Hlen as Hlen; injection Hpost as -> ->.
      rewrite <- Hlen, skipn_app, skipn_all, Nat.sub_diag.
      reflexivity.
    + rewrite IH; reflexivity.
Qed.

Lemma convert_from_no_quote W viewPath (t : jsstring) :
  ~ In QUOTE t -> convert_from W viewPath 0 t = t.
Proof.
  induction t as [|c rest IH]; intros Hq; [reflexivity|].
  cbn [convert_from].
  destruct (match_attribute (c :: rest)) as [groups|] eqn:Hm.
  - exfalso; apply Hq; exact (match_attribute_quote _ _ Hm).
  - rewrite IH; [reflexivity|].
    intros Hin; apply Hq; right; exact Hin.
Qed.

(** X15. [convertResourcePaths] returns the HTML unchanged when none of
    the resources it could name exists under the view path, and also,
    whatever exists, when the HTML holds no double quote; nothing of the
    text around the attributes is ever dropped in these cases. *)
Theorem convertResourcePaths_leaves_unresolved_html_unchanged :
  forall W html viewPath,
    ((forall p, existsSync W (path_join W viewPath p) = false) ->
     convertResourcePaths W html viewPath = html)
    /\ (~ In QUOTE html -> convertResourcePaths W html viewPath = html).
Proof.
  intros W html viewPath; unfold convertResourcePaths; split.
  - intros Hnone.
    rewrite convert_from_unchanged; [reflexivity|].
    intros attr rel; unfold convert_attribute.
    rewrite Hnone; cbn [negb].
    destruct (starts_with (lit "http") rel || starts_with (lit "data:") rel
              || starts_with (lit "vscode-") rel); reflexivity.
  - apply convert_from_no_quote.
Qed.

Lemma up_to_quote_app (v post : jsstring) :
  ~ In QUOTE v -> up_to_quote (v ++ QUOTE :: post) = Some v.
Proof.
  induction v as [|c v IH]; intros Hq; cbn [app up_to_quote].
  - rewrite N.eqb_refl; reflexivity.
  - destruct (N.eqb_spec c QUOTE) as [-> | _].
    + exfalso; apply Hq; left; reflexivity.
    + rewrite IH; [reflexivity|].
      intros Hin; apply Hq; right; exact Hin.
Qed.

Lemma match_attribute_named_complete (attr rel post : jsstring) :
  rel <> [] -> ~ In QUOTE rel ->
  match_attribute_named attr (attribute_text attr rel ++ post)
  = Some (attr, rel).
Proof.
  intros Hrel Hq; unfold match_attribute_named, attribute_text.
  replace ((attr ++ lit "=" ++ [QUOTE] ++ rel ++ [QUOTE]) ++ post)
    with ((attr ++ lit "=" ++ [QUOTE]) ++ (rel ++ QUOTE :: post))
    by (rewrite <- !app_assoc; reflexivity).
  assert (Hst : starts_with (attr ++ lit "=" ++ [QUOTE])
                  ((attr ++ lit "=" ++ [QUOTE]) ++ rel ++ QUOTE :: post)
                = true)
    by (apply starts_with_spec; eexists; reflexivity).
  rewrite Hst.
  replace (length attr + 2)
    with (length (attr ++ lit "=" ++ [QUOTE]) + 0)
    by (rewrite !length_app; simpl; lia).
  rewrite skipn_app, skipn_all2, Nat.add_0_r, Nat.sub_diag by lia.
  cbn [app skipn]; rewrite up_to_quote_app by exact Hq.
  destruct rel; [contradiction | reflexivity].
Qed.

Lemma match_attribute_complete (attr rel post : jsstring) :
  attr = lit "href" \/ attr = lit "src" ->
  rel <> [] -> ~ In QUOTE rel ->
  match_attribute (attribute_text attr rel ++ post) = Some (attr, rel).
Proof.
  intros Hattr Hrel Hq; unfold match_attribute.
  destruct Hattr as [-> | ->].
  - rewrite match_attribute_named_complete by assumption; reflexivity.
  - assert (Hh : match_attribute_named (lit "href")
                   (attribute_text (lit "src") rel ++ post) = None)
      by reflexivity.
    rewrite Hh; apply match_attribute_named_complete; assumption.
Qed.

Lemma match_attribute_first_quote (s : jsstring) groups :
  match_attribute s = Some groups ->
  up_to_quote s = Some (lit "href=") \/ up_to_quote s = Some (lit "src=").
Proof.
  unfold match_attribute; intros H.
  destruct (match_attribute_named (lit "href") s) as [[a r]|] eqn:Hh.
  - left; destruct (match_attribute_named_spec _ _ _ _ Hh) as [_ [post ->]].
    unfold attribute_text.
    change (lit "href" ++ lit "=" ++ [QUOTE] ++ r ++ [QUOTE])
      with (lit "href=" ++ QUOTE :: r ++ [QUOTE]).
    rewrite <- app_assoc; apply up_to_quote_app.
    cbn; intros Hin; repeat (destruct Hin as [Hin | Hin]; [discriminate|]).
    exact Hin.
  - right; destruct groups as [a r].
    destruct (match_attribute_named_spec _ _ _ _ H) as [_ [post ->]].
    unfold attribute_text.
    change (lit "src" ++ lit "=" ++ [QUOTE] ++ r ++ [QUOTE])
      with (lit "src=" ++ QUOTE :: r ++ [QUOTE]).
    rewrite <- app_assoc; apply up_to_quote_app.
    cbn; intros Hin; repeat (destruct Hin as [Hin | Hin]; [discriminate|]).
    exact Hin.
Qed.

Lemma convert_from_skip W viewPath (a b : jsstring) :
  convert_from W viewPath (length a) (a ++ b) = convert_from W viewPath 0 b.
Proof. induction a as [|c a IH]; [reflexivity | exact IH]. Qed.

(** No match starts in a text without double quote that is followed by
    an attribute. *)
Lemma no_match_before_attribute (c : N) (pre attr rel post : jsstring) :
  attr = lit "href" \/ attr = lit "src" ->
  ~ In QUOTE (c :: pre) ->
  match_attribute ((c :: pre) ++ attribute_text attr rel ++ post) = None.
Proof.
  intros Hattr Hq.
  destruct (match_attribute ((c :: pre) ++ attribute_text attr rel ++ post))
    as [groups|] eqn:Hm; [|reflexivity].
  exfalso; apply match_attribute_first_quote in Hm.
  assert (Hup : up_to_quote ((c :: pre) ++ attribute_text attr rel ++ post)
                = Some ((c :: pre) ++ attr ++ lit "=")).
  { unfold attribute_text.
    replace ((c :: pre) ++ (attr ++ lit "=" ++ [QUOTE] ++ rel ++ [QUOTE])
             ++ post)
      with (((c :: pre) ++ attr ++ lit "=")
            ++ QUOTE :: (rel ++ [QUOTE] ++ post))
      by (rewrite <- !app_assoc; reflexivity).
    apply up_to_quote_app.
    rewrite !in_app_iff; intros [Hin | [Hin | Hin]].
    - exact (Hq Hin).
    - destruct Hattr as [-> | ->]; cbn in Hin;
        repeat (destruct Hin as [Hin | Hin]; [discriminate|]); exact Hin.
    - cbn in Hin; destruct Hin as [Hin | Hin]; [discriminate | exact Hin]. }
  rewrite Hup in Hm.
  assert (Hsome : forall a b : jsstring, Some a = Some b -> a = b)
    by (intros a b H; injection H; auto).
  destruct Hm as [Hm | Hm]; apply Hsome in Hm;
    destruct Hattr as [-> | ->];
    pose proof (f_equal (@length N) Hm) as Hlen;
    rewrite ?length_app in Hlen; cbn in Hlen; try lia.
  (* one character before [src=], five in all: the text starts with [s] *)
  destruct pre as [|c' pre]; [|cbn in Hlen; lia].
  cbn in Hm; discriminate Hm.
Qed.

(** X16. An attribute [href] or [src] that follows a text without double
    quote, with a non-empty value without double quote: the text before
    it is kept, the attribute is handed to the callback, and the rest of
    the HTML is converted on its own. The callback keeps values that
    start with [http], [data:] or [vscode-] and values whose file does
    not exist; any other value is replaced by the webview URI of the file
    under the view path. *)
Theorem convertResourcePaths_rewrites_local_resources :
  forall W viewPath pre attr rel post,
    attr = lit "href" \/ attr = lit "src" ->
    ~ In QUOTE pre -> rel <> [] -> ~ In QUOTE rel ->
    convertResourcePaths W (pre ++ attribute_text attr rel ++ post) viewPath
    = pre ++ convert_attribute W viewPath attr rel
      ++ convertResourcePaths W post viewPath
    /\ (starts_with (lit "http") rel = false ->
        starts_with (lit "data:") rel = false ->
        starts_with (lit "vscode-") rel = false ->
        existsSync W (path_join W viewPath rel) = true ->
        convert_attribute W viewPath attr rel
        = attribute_text attr (asWebviewUri W (path_join W viewPath rel)))
    /\ (starts_with (lit "http") rel = true
        \/ starts_with (lit "data:") rel = true
        \/ starts_with (lit "vscode-") rel = true
        \/ existsSync W (path_join W viewPath rel) = false ->
        convert_attribute W viewPath attr rel = attribute_text attr rel).
Proof.
  intros W viewPath pre attr rel post Hattr Hpre Hrel Hq.
  split; [|split].
  - unfold convertResourcePaths.
    induction pre as [|c pre IH].
    + cbn [app].
      pose proof (match_attribute_complete attr rel post Hattr Hrel Hq) as Hm.
      pose proof (attribute_text_length attr rel) as Hlen.
      destruct (attribute_text attr rel) as [|c text] eqn:Htext;
        [discriminate Hlen|].
      injection Hlen as Hlen.
      cbn [app convert_from]; cbn [app] in Hm; rewrite Hm.
      rewrite <- Hlen, convert_from_skip; reflexivity.
    + change ((c :: pre) ++ attribute_text attr rel ++ post)
        with (c :: (pre ++ attribute_text attr rel ++ post)).
      cbn [convert_from].
      change (c :: (pre ++ attribute_text attr rel ++ post))
        with ((c :: pre) ++ attribute_text attr rel ++ post).
      rewrite (no_match_before_attribute c pre attr rel post Hattr Hpre).
      rewrite IH; [reflexivity|].
      intros Hin; apply Hpre; right; exact Hin.
  - intros H1 H2 H3 Hex; unfold convert_attribute, attribute_text.
    rewrite H1, H2, H3, Hex; reflexivity.
  - intros H; unfold convert_attribute.
    destruct (starts_with (lit "http") rel);
      [reflexivity|].
    destruct (starts_with (lit "data:") rel);
      [reflexivity|].
    destruct (starts_with (lit "vscode-") rel);
      [reflexivity|].
    destruct H as [H | [H | [H | H]]]; try discriminate H.
    rewrite H; reflexivity.
Qed.

(** A script of the view and an external link. *)
Lemma convertResourcePaths_witness :
  (lit "src" = lit "href" \/ lit "src" = lit "src")
  /\ ~ In QUOTE (lit "<script ")
  /\ lit "app.js" <> []
  /\ ~ In QUOTE (lit "app.js")
  /\ convertResourcePaths sample_webview
       (lit "<script " ++ attribute_text (lit "src") (lit "app.js")
        ++ dq "></script><a href='http://x'>x</a>") (lit "/v")
     = dq "<script src='vscode-resource:/v/app.js'></script>"
       ++ dq "<a href='http://x'>x</a>".
Proof.
  assert (H1 : ~ In QUOTE (lit "<script ")).
  { cbn; intros H; repeat (destruct H as [H | H]; [discriminate|]); exact H. }
  assert (H2 : ~ In QUOTE (lit "app.js")).
  { cbn; intros H; repeat (destruct H as [H | H]; [discriminate|]); exact H. }
  split; [right; reflexivity|].
  split; [exact H1|].
  split; [discriminate|].
  split; [exact H2|].
  destruct (convertResourcePaths_rewrites_local_resources
              sample_webview (lit "/v") (lit "<script ") (lit "src")
              (lit "app.js") (dq "></script><a href='http://x'>x</a>")
              (or_intror eq_refl) H1 ltac:(discriminate) H2) as [H _].
  rewrite H; reflexivity.
Defined.

(** ** [injectLocalCSS] *)

Lemma get_substitution_no_dollar (matched before after r : jsstring) :
  ~ In DOLLAR r -> get_substitution matched before after r = r.
Proof.
  induction r as [|c r IH]; intros Hd; cbn [get_substitution].
  - reflexivity.
  - destruct (N.eqb_spec c DOLLAR) as [-> | _].
    + exfalso; apply Hd; left; reflexivity.
    + rewrite IH; [reflexivity|].
      intros Hin; apply Hd; right; exact Hin.
Qed.

Lemma index_of_spec (needle s : jsstring) (i : nat) :
  index_of needle s = Some i ->
  s = firstn i s ++ needle ++ skipn (i + length needle) s.
Proof.
  revert i; induction s as [|c rest IH]; intros i; cbn [index_of].
  - destruct (starts_with needle []) eqn:Hst; [|discriminate].
    intros [= <-]; apply starts_with_spec in Hst.
    destruct Hst as [post Hpost]; destruct needle; [|discriminate].
    reflexivity.
  - destruct (starts_with needle (c :: rest)) eqn:Hst.
    + intros [= <-]; apply starts_with_spec in Hst.
      destruct Hst as [post Hpost]; rewrite Hpost.
      cbn [firstn app Nat.add].
      rewrite skipn_app, skipn_all, Nat.sub_diag; reflexivity.
    + destruct (index_of needle rest) as [j|]; [|discriminate].
      intros [= <-]; cbn [firstn Nat.add skipn app].
      rewrite <- (IH j eq_refl); reflexivity.
Qed.

Lemma index_of_occurs (needle a b : jsstring) :
  exists i, index_of needle (a ++ needle ++ b) = Some i.
Proof.
  induction a as [|c a [i IH]].
  - exists 0; cbn [app].
    assert (Hst : starts_with needle (needle ++ b) = true)
      by (apply starts_with_spec; exists b; reflexivity).
    destruct (needle ++ b); cbn [index_of]; rewrite Hst; reflexivity.
  - cbn [app index_of].
    destruct (starts_with needle (c :: a ++ needle ++ b));
      [exists 0; reflexivity|].
    rewrite IH; exists (S i); reflexivity.
Qed.

Lemma up_to_greater_than_spec (s t : jsstring) :
  up_to_greater_than s = Some t -> exists b, s = t ++ b.
Proof.
  revert t; induction s as [|c rest IH]; intros t;
    cbn [up_to_greater_than]; [discriminate|].
  destruct (N.eqb c GREATER_THAN).
  - intros [= <-]; exists rest; reflexivity.
  - destruct (up_to_greater_than rest) as [t'|]; [|discriminate].
    intros [= <-]; destruct (IH t' eq_refl) as [b ->].
    exists b; reflexivity.
Qed.

Lemma match_html_tag_occurs (s m : jsstring) :
  match_html_tag s = Some m -> exists a b, s = a ++ m ++ b.
Proof.
  revert m; induction s as [|c rest IH]; intros m;
    cbn [match_html_tag]; [discriminate|].
  destruct (if starts_with_ci (lit "<html") (c :: rest)
            then up_to_greater_than (skipn 5 (c :: rest)) else None)
    as [tail|] eqn:Htail.
  - intros Heq.
    assert (Hm : m = firstn 5 (c :: rest) ++ tail)
      by (injection Heq; auto).
    destruct (starts_with_ci (lit "<html") (c :: rest)); [|discriminate].
    destruct (up_to_greater_than_spec _ _ Htail) as [b Hb].
    exists [], b; rewrite Hm, <- app_assoc, <- Hb.
    symmetry; apply (firstn_skipn 5 (c :: rest)).
  - intros Hm; destruct (IH m Hm) as [a [b ->]].
    exists (c :: a), b; reflexivity.
Qed.

Lemma cssLink_no_dollar (cssUri : jsstring) :
  ~ In DOLLAR cssUri -> ~ In DOLLAR (cssLink_of cssUri).
Proof.
  intros Hu; unfold cssLink_of; rewrite !in_app_iff; cbn.
  intros H; repeat (destruct H as [H | H]; try discriminate H);
    try contradiction.
Qed.

Lemma index_of_first (needle s : jsstring) (i : nat) :
  index_of needle s = Some i ->
  forall j, j < i -> starts_with needle (skipn j s) = false.
Proof.
  revert i; induction s as [|c rest IH]; intros i; cbn [index_of].
  - destruct (starts_with needle []); [|discriminate].
    intros [= <-] j Hj; lia.
  - destruct (starts_with needle (c :: rest)) eqn:Hst.
    + intros [= <-] j Hj; lia.
    + destruct (index_of needle rest) as [k|]; [|discriminate].
      intros [= <-] [|j] Hj; [exact Hst|].
      cbn [skipn]; apply (IH k eq_refl); lia.
Qed.

Lemma replace_first_at (pattern tail s : jsstring) (i : nat) :
  ~ In DOLLAR pattern -> ~ In DOLLAR tail ->
  index_of pattern s = Some i ->
  replace_first pattern (pattern ++ tail) s
  = firstn i s ++ pattern ++ tail ++ skipn (i + length pattern) s.
Proof.
  intros Hp Ht Hi; unfold replace_first; rewrite Hi.
  rewrite get_substitution_no_dollar, <- !app_assoc; [reflexivity|].
  rewrite in_app_iff; tauto.
Qed.

(** X17. [injectLocalCSS]. Without a style sheet beside the HTML file the
    HTML is returned as it is. With one, the HTML is kept whole and the
    link is inserted once, at a place the document decides. When the
    document contains [<head>], the link follows its first occurrence,
    after a line feed and a tab. When it does not, but contains
    [<!DOCTYPE] or [<html] in these very letters and has an opening
    [html] tag in any case of letters, the link follows the first
    occurrence of that tag, after a line feed. In every other case the
    link and a line feed are put in front of the document; so it is for
    a document that opens with [<HTML>] and has no [<!DOCTYPE]. The two
    insertions are stated for a URI, and a tag, without a dollar sign,
    so that no replacement pattern is at play. *)
Theorem injectLocalCSS_inserts_one_link :
  forall W html htmlPath,
    let cssPath :=
      path_join W (path_dirname W htmlPath)
        (path_basename W htmlPath (lit ".html") ++ lit ".css") in
    let cssLink := cssLink_of (asWebviewUri W cssPath) in
    let result := injectLocalCSS W html htmlPath in
    let has_head := includes_string (lit "<head>") html in
    let looks_like_html :=
      includes_string (lit "<!DOCTYPE") html
      || includes_string (lit "<html") html in
    (existsSync W cssPath = false -> result = html)
    /\ (existsSync W cssPath = true ->
        has_head = true ->
        ~ In DOLLAR (asWebviewUri W cssPath) ->
        exists i,
          index_of (lit "<head>") html = Some i
          /\ (forall j, j < i ->
                starts_with (lit "<head>") (skipn j html) = false)
          /\ html = firstn i html ++ lit "<head>" ++ skipn (i + 6) html
          /\ result
             = firstn i html ++ lit "<head>" ++ [LF; TAB] ++ cssLink
               ++ skipn (i + 6) html)
    /\ (existsSync W cssPath = true ->
        has_head = false ->
        looks_like_html = true ->
        forall tag,
          match_html_tag html = Some tag ->
          ~ In DOLLAR tag ->
          ~ In DOLLAR (asWebviewUri W cssPath) ->
          exists i,
            index_of tag html = Some i
            /\ (forall j, j < i -> starts_with tag (skipn j html) = false)
            /\ html = firstn i html ++ tag ++ skipn (i + length tag) html
            /\ result
               = firstn i html ++ tag ++ [LF] ++ cssLink
                 ++ skipn (i + length tag) html)
    /\ (existsSync W cssPath = true ->
        has_head = false ->
        looks_like_html = false \/ match_html_tag html = None ->
        result = cssLink ++ [LF] ++ html)
    /\ injectLocalCSS sample_webview (lit "<HTML><body></body></HTML>")
         (lit "/v/index.html")
       = cssLink_of (lit "vscode-resource:/v/index.css") ++ [LF]
         ++ lit "<HTML><body></body></HTML>".
Proof.
  intros W html htmlPath cssPath cssLink result has_head looks_like_html.
  subst result has_head looks_like_html.
  unfold injectLocalCSS; fold cssPath.
  split; [|split; [|split; [|split]]].
  - intros ->; reflexivity.
  - intros -> Hhead Huri; cbn [negb]; fold cssLink; rewrite Hhead.
    assert (Hlink : ~ In DOLLAR cssLink)
      by (apply cssLink_no_dollar; exact Huri).
    unfold includes_string in Hhead.
    destruct (index_of (lit "<head>") html) as [i|] eqn:Hi;
      [|discriminate].
    exists i; split; [reflexivity|].
    split; [apply index_of_first; exact Hi|].
    split; [apply (index_of_spec _ _ _ Hi)|].
    rewrite (replace_first_at (lit "<head>") ([LF; TAB] ++ cssLink) html i).
    + reflexivity.
    + cbn; intros H; repeat (destruct H as [H | H]; [discriminate|]);
        exact H.
    + cbn [app]; intros [H | [H | H]];
        [discriminate | discriminate | exact (Hlink H)].
    + exact Hi.
  - intros -> Hhead Hlooks tag Htag Hdollar Huri.
    cbn [negb]; fold cssLink; rewrite Hhead, Hlooks, Htag.
    assert (Hlink : ~ In DOLLAR cssLink)
      by (apply cssLink_no_dollar; exact Huri).
    destruct (match_html_tag_occurs _ _ Htag) as [a [b Hocc]].
    destruct (index_of_occurs tag a b) as [i Hi]; rewrite <- Hocc in Hi.
    exists i; split; [exact Hi|].
    split; [apply index_of_first; exact Hi|].
    split; [apply (index_of_spec _ _ _ Hi)|].
    rewrite (replace_first_at tag ([LF] ++ cssLink) html i).
    + reflexivity.
    + exact Hdollar.
    + cbn [app]; intros [H | H]; [discriminate | exact (Hlink H)].
    + exact Hi.
  - intros -> Hhead Hother; cbn [negb]; fold cssLink; rewrite Hhead.
    destruct Hother as [-> | ->]; [reflexivity|].
    destruct (includes_string (lit "<!DOCTYPE") html
              || includes_string (lit "<html") html); reflexivity.
  - reflexivity.
Qed.

(** A document with a head, in the sample view. *)
Lemma injectLocalCSS_witness :
  existsSync sample_webview
    (path_join sample_webview
       (path_dirname sample_webview (lit "/v/index.html"))
       (path_basename sample_webview (lit "/v/index.html") (lit ".html")
        ++ lit ".css"))
  = true
  /\ includes_string (lit "<head>") (lit "<html><head></head></html>") = true
  /\ ~ In DOLLAR (lit "vscode-resource:/v/index.css")
  /\ injectLocalCSS sample_webview (lit "<html><head></head></html>")
       (lit "/v/index.html")
     = lit "<html><head>" ++ [LF; TAB]
       ++ dq "<link rel='stylesheet' href='vscode-resource:/v/index.css'>"
       ++ lit "</head></html>".
Proof.
  assert (H2 : ~ In DOLLAR (lit "vscode-resource:/v/index.css")).
  { cbn; intros H; repeat (destruct H as [H | H]; [discriminate|]); exact H. }
  split; [reflexivity | split; [reflexivity | split; [exact H2|]]].
  destruct (injectLocalCSS_inserts_one_link
              sample_webview (lit "<html><head></head></html>")
              (lit "/v/index.html")) as [_ [H _]].
  destruct (H eq_refl eq_refl H2) as [i [Hi [_ [_ Hr]]]].
  injection Hi as <-; rewrite Hr; reflexivity.
Defined.

(** * More on the code of [eval] *)

Lemma trimStart_idempotent (s : jsstring) :
  trimStart (trimStart s) = trimStart s.
Proof.
  induction s as [|c s IH]; [reflexivity|].
  cbn [trimStart]; destruct (is_js_whitespace c) eqn:Hc; [exact IH|].
  cbn [trimStart]; rewrite Hc; reflexivity.
Qed.

Lemma trimStart_whitespace (ws s : jsstring) :
  forallb is_js_whitespace ws = true -> trimStart (ws ++ s) = trimStart s.
Proof.
  induction ws as [|c ws IH]; [reflexivity|].
  cbn [forallb app trimStart]; intros H.
  apply andb_true_iff in H; destruct H as [-> H]; apply IH, H.
Qed.

(** A text that ends with a character that is not white space keeps it
    when the white space at its start is removed. *)
Lemma trimStart_keeps_last (l : jsstring) (c : N) :
  is_js_whitespace c = false -> exists u, trimStart (l ++ [c]) = u ++ [c].
Proof.
  intros Hc; induction l as [|x l [u IH]]; cbn [app trimStart].
  - rewrite Hc; exists []; reflexivity.
  - destruct (is_js_whitespace x).
    + exists u; exact IH.
    + exists (x :: l); reflexivity.
Qed.

Lemma trimEnd_idempotent (s : jsstring) : trimEnd (trimEnd s) = trimEnd s.
Proof.
  unfold trimEnd; rewrite rev_involutive, trimStart_idempotent; reflexivity.
Qed.

Lemma trimEnd_whitespace (s ws : jsstring) :
  forallb is_js_whitespace ws = true -> trimEnd (s ++ ws) = trimEnd s.
Proof.
  intros H; unfold trimEnd; rewrite rev_app_distr, trimStart_whitespace;
    [reflexivity|].
  rewrite forallb_forall in *; intros x Hx; apply H, in_rev, Hx.
Qed.

(** Removing the white space at the end does not bring white space to
    the start. *)
Lemma trimStart_trimEnd (s : jsstring) :
  trimStart s = s -> trimStart (trimEnd s) = trimEnd s.
Proof.
  destruct s as [|c s]; [reflexivity|].
  cbn [trimStart]; destruct (is_js_whitespace c) eqn:Hc.
  - intros H; exfalso.
    assert (Hlen : length (trimStart s) <= length s).
    { clear; induction s as [|x s IH]; [apply le_n|].
      cbn [trimStart]; destruct (is_js_whitespace x); simpl; lia. }
    rewrite H in Hlen; simpl in Hlen; lia.
  - intros _; unfold trimEnd; cbn [rev].
    destruct (trimStart_keeps_last (rev s) c Hc) as [u ->].
    rewrite rev_app_distr; cbn [rev app trimStart]; rewrite Hc; reflexivity.
Qed.

Lemma trim_idempotent (s : jsstring) : trim (trim s) = trim s.
Proof.
  unfold trim.
  rewrite (trimStart_trimEnd (trimStart s)) by apply trimStart_idempotent.
  apply trimEnd_idempotent.
Qed.

Lemma trimEnd_trimStart_whitespace (ws s : jsstring) :
  forallb is_js_whitespace ws = true -> trim (ws ++ s) = trim s.
Proof.
  intros H; unfold trim; rewrite trimStart_whitespace by exact H.
  reflexivity.
Qed.

Lemma trim_surrounding_whitespace (before s after : jsstring) :
  forallb is_js_whitespace before = true ->
  forallb is_js_whitespace after = true ->
  trim (before ++ s ++ after) = trim s.
Proof.
  intros Hb Ha; rewrite trimEnd_trimStart_whitespace by exact Hb.
  (* white space at the end: through the reversed text *)
  unfold trim, trimEnd.
  destruct (trimStart s) as [|c t] eqn:Hs.
  - (* [s] is white space only: so is [s ++ after] *)
    assert (Hall : forall a, trimStart a = [] ->
                             forallb is_js_whitespace a = true).
    { intros a; induction a as [|x a IH]; [reflexivity|].
      cbn [trimStart forallb]; destruct (is_js_whitespace x);
        [exact IH | discriminate]. }
    assert (Hsa : forallb is_js_whitespace (s ++ after) = true)
      by (rewrite forallb_app, (Hall s Hs), Ha; reflexivity).
    rewrite <- (app_nil_r (s ++ after)), trimStart_whitespace by exact Hsa.
    reflexivity.
  - assert (Hsplit : exists ws, s = ws ++ c :: t
                                /\ forallb is_js_whitespace ws = true).
    { clear - Hs; revert Hs; induction s as [|x s IH];
        cbn [trimStart]; [discriminate|].
      destruct (is_js_whitespace x) eqn:Hx.
      - intros H; destruct (IH H) as [ws [-> Hws]].
        exists (x :: ws); split; [reflexivity|].
        cbn [forallb]; rewrite Hx, Hws; reflexivity.
      - intros [= -> ->]; exists []; split; reflexivity. }
    destruct Hsplit as [ws [-> Hws]].
    rewrite <- app_assoc, trimStart_whitespace by exact Hws.
    assert (Hc : is_js_whitespace c = false).
    { destruct (is_js_whitespace c) eqn:Hc; [|reflexivity].
      rewrite trimStart_whitespace in Hs by exact Hws.
      cbn [trimStart] in Hs; rewrite Hc in Hs.
      assert (Hlen : length (trimStart t) <= length t).
      { clear; induction t as [|x t IH]; [apply le_n|].
        cbn [trimStart]; destruct (is_js_whitespace x); simpl; lia. }
      rewrite Hs in Hlen; simpl in Hlen; lia. }
    cbn [app trimStart]; rewrite Hc.
    change (c :: t ++ after) with ((c :: t) ++ after).
    rewrite rev_app_distr, trimStart_whitespace; [reflexivity|].
    rewrite forallb_forall in *; intros x Hx; apply Ha, in_rev, Hx.
Qed.

Lemma trimEnd_keeps_last (l : jsstring) (c : N) :
  is_js_whitespace c = false -> trimEnd (l ++ [c]) = l ++ [c].
Proof.
  intros Hc; unfold trimEnd.
  rewrite rev_app_distr; cbn [rev app trimStart]; rewrite Hc.
  change (c :: rev l) with (rev [c] ++ rev l).
  rewrite <- rev_app_distr, rev_involutive; reflexivity.
Qed.

Lemma implicit_return_wrapped (code : jsstring) :
  trim (lit "return (" ++ code ++ lit ")") = lit "return (" ++ code ++ lit ")"
  /\ hasExplicitReturn (lit "return (" ++ code ++ lit ")") = true.
Proof.
  split; [|reflexivity].
  unfold trim.
  assert (Hstart : trimStart (lit "return (" ++ code ++ lit ")")
                   = lit "return (" ++ code ++ lit ")") by reflexivity.
  rewrite Hstart, app_assoc.
  apply trimEnd_keeps_last; reflexivity.
Qed.

(** X18. The body that [eval] runs is a fixed point of its own
    preparation: sending the prepared body as [code] runs that very body
    again, neither wrapped a second time nor changed by [trim]. *)
Theorem eval_body_idempotent :
  forall source, eval_body (eval_body source) = eval_body source.
Proof.
  intros source; unfold eval_body; set (code := trim source).
  destruct (negb (hasExplicitReturn code) && isSingleExpression code)
    eqn:Hwrap.
  - assert (H : implicit_return code = lit "return (" ++ code ++ lit ")")
      by (unfold implicit_return; rewrite Hwrap; reflexivity).
    rewrite H; destruct (implicit_return_wrapped code) as [Ht Hr].
    rewrite Ht; unfold implicit_return; rewrite Hr; reflexivity.
  - assert (H : implicit_return code = code)
      by (unfold implicit_return; rewrite Hwrap; reflexivity).
    rewrite H; unfold code; rewrite trim_idempotent; exact H.
Qed.

(** X19. White space around the code of an [eval] request changes
    nothing: the command completes as it does for the code without it.
    Code that is empty or all white space is run as the body
    [return ()]. *)
Theorem eval_ignores_surrounding_whitespace :
  forall E request before core after st,
    member request "method" = str "eval" ->
    member (member request "params") "code"
    = VStr (before ++ core ++ after) ->
    forallb is_js_whitespace before = true ->
    forallb is_js_whitespace after = true ->
    eval_body (before ++ core ++ after) = eval_body core
    /\ fst (executeCommand E request st)
       = snd (run_async_function E (eval_body core))
    /\ (core = [] -> eval_body (before ++ core ++ after) = lit "return ()").
Proof.
  intros E request before core after st Hmethod Hcode Hb Ha.
  assert (Heq : eval_body (before ++ core ++ after) = eval_body core).
  { unfold eval_body; rewrite trim_surrounding_whitespace by assumption.
    reflexivity. }
  split; [exact Heq|]; split.
  - rewrite executeCommand_eval by exact Hmethod.
    rewrite (case_eval_string E _ _ _ Hcode), Heq; reflexivity.
  - intros ->; rewrite Heq; reflexivity.
Qed.

(** [40+2] between a tab and a line feed. *)
Lemma eval_whitespace_witness :
  member (eval_request ([TAB] ++ lit "40+2" ++ [LF])) "method" = str "eval"
  /\ member (member (eval_request ([TAB] ++ lit "40+2" ++ [LF])) "params")
       "code"
     = VStr ([TAB] ++ lit "40+2" ++ [LF])
  /\ forallb is_js_whitespace [TAB] = true
  /\ forallb is_js_whitespace [LF] = true
  /\ fst (executeCommand sample_env
            (eval_request ([TAB] ++ lit "40+2" ++ [LF])) initial_state)
     = Return (VNum 42).
Proof.
  repeat (split; [reflexivity|]).
  destruct (eval_ignores_surrounding_whitespace
              sample_env (eval_request ([TAB] ++ lit "40+2" ++ [LF]))
              [TAB] (lit "40+2") [LF] initial_state
              eq_refl eq_refl eq_refl eq_refl) as [_ [H _]].
  rewrite H; reflexivity.
Defined.

(** An HTML without double quote. *)
Lemma convertResourcePaths_unchanged_witness :
  ~ In QUOTE (lit "<p>hi</p>")
  /\ convertResourcePaths sample_webview (lit "<p>hi</p>") (lit "/v")
     = lit "<p>hi</p>".
Proof.
  assert (H : ~ In QUOTE (lit "<p>hi</p>")).
  { cbn; intros H; repeat (destruct H as [H | H]; [discriminate|]); exact H. }
  split; [exact H|].
  destruct (convertResourcePaths_leaves_unresolved_html_unchanged
              sample_webview (lit "<p>hi</p>") (lit "/v")) as [_ Hq].
  exact (Hq H).
Defined.
